(** * github-metadata-api: the metadata transformation pipeline

    A shallow embedding of [src/metadataExtractor/helpers/metadata.js] (the
    Metadata Normalizer, the List-ID Preparer, the Document Classifier, the
    CITATION.cff Mapper and the BibTeX Extractor / Publication Builder) and of
    [generateBranchName] from the metadata updater, with the properties the
    specification states about them.

    Conventions of the embedding.
    - A JavaScript string is a [string]: a sequence of 8-bit characters, each
      standing for the code unit of the same number.  Everything the modelled
      code inspects (braces, commas, [@], ASCII letters and digits, [.md]) is
      ASCII; characters above 255 are outside the model.
    - A JavaScript value is a [jsval]; the primitives that GraphQL, YAML and
      BibTeX leaves can hold are a [prim].  Numbers in a [prim] are the
      integers they denote.
    - A function that can throw returns an [outcome]; a function that mutates
      the metadata record threads it explicitly (the monad [M]).
    - Library functions that are not part of the repository (Unicode
      normalisation, [yaml.load] of js-yaml, [parse] of bibtex-parser) and
      the directory listing obtained from GitHub are arguments of the
      functions that call them. *)

From Stdlib Require Import ZArith Ascii String List Bool Lia Sorted.
From stdpp Require Import gmap strings list fin_maps pretty.

(** ** JavaScript values *)

Inductive prim : Type :=
| PUndefined
| PNull
| PBool (b : bool)
| PNum (n : Z)
| PStr (s : string).

#[local] Unset Elimination Schemes.
Inductive jsval : Type :=
| JPrim (p : prim)
| JArr (xs : list jsval)
| JObj (props : list (string * jsval)).
#[local] Set Elimination Schemes.

Coercion JPrim : prim >-> jsval.

Global Instance prim_eq_dec : EqDecision prim.
Proof. solve_decision. Defined.

(** [a === b] on primitives: same type and same value. *)
Definition strict_eq (a b : prim) : bool := bool_decide (a = b).

(** [val !== null]. *)
Definition is_null (v : jsval) : bool :=
  match v with JPrim PNull => true | _ => false end.

(** ToBoolean on primitives. *)
Definition truthy (p : prim) : bool :=
  match p with
  | PUndefined | PNull => false
  | PBool b => b
  | PNum n => negb (n =? 0)%Z
  | PStr s => negb (String.eqb s "")
  end.

(** [a || b]. *)
Definition js_or (a b : prim) : prim := if truthy a then a else b.

(** ToString on primitives, as a template literal or [String(...)] applies
    it (a number prints as its decimal digits, as integers below 10^21 in
    magnitude do). *)
Definition ToString (p : prim) : string :=
  match p with
  | PUndefined => "undefined"
  | PNull => "null"
  | PBool true => "true"
  | PBool false => "false"
  | PNum n => pretty n
  | PStr s => s
  end.

(** The result of a call that may throw. *)
Inductive outcome (A : Type) : Type :=
| Returned (a : A)
| Thrown (msg : string).
Arguments Returned {A} a.
Arguments Thrown {A} msg.

(** ** The metadata record and the monad of code that mutates it *)

(** The metadata object: property name to value. *)
Abbreviation MetadataRecord := (gmap string jsval).

Definition M (A : Type) : Type := MetadataRecord -> outcome A * MetadataRecord.

Definition ret {A} (a : A) : M A := fun m => (Returned a, m).
Definition throw {A} (msg : string) : M A := fun m => (Thrown msg, m).
Definition bind {A B} (c : M A) (k : A -> M B) : M B :=
  fun m => match c m with
           | (Returned a, m') => k a m'
           | (Thrown e, m') => (Thrown e, m')
           end.
Notation "'do' x <- c ; k" := (bind c (fun x => k))
  (at level 10, x name, c at level 100, k at level 200).
Notation "'run' c ; k" := (bind c (fun _ => k))
  (at level 10, c at level 100, k at level 200).

(** [metadata[field]]: a missing property reads as [undefined]. *)
Definition get_field (field : string) : M jsval :=
  fun m => (Returned (default (JPrim PUndefined) (m !! field)), m).
(** [metadata[field] = v]. *)
Definition set_field (field : string) (v : jsval) : M unit :=
  fun m => (Returned tt, <[field := v]> m).
(** [metadata[field].push(v)]: a TypeError unless the property holds an array. *)
Definition push_field (field : string) (v : jsval) : M unit :=
  fun m => match m !! field with
           | Some (JArr xs) => (Returned tt, <[field := JArr (xs ++ [v])]> m)
           | _ => (Thrown "TypeError", m)
           end.
Definition when (b : bool) (c : M unit) : M unit := if b then c else ret tt.

(** The property holds an array. *)
Definition has_array (m : MetadataRecord) (field : string) : Prop :=
  exists xs, m !! field = Some (JArr xs).

(** ** Metadata Normalizer *)

Record Contributor := { contributor_name : prim; contributor_email : prim }.
Record TopicNode := { node_url : prim; node_topic_name : prim }.
Record ReleaseNode := { node_tagName : prim }.
Record LicenseInfo := { licenseInfo_name : prim; licenseInfo_url : prim }.

(** The repository object of [queryRepositoryObject], with the properties
    [githubMetadata] reads.  [licenseInfo] is [None] when it is null. *)
Record RepositoryObject := {
  gh_name : prim;
  gh_description : prim;
  gh_mirrorUrl : prim;
  gh_homepageUrl : prim;
  gh_url : prim;
  gh_isDisabled : prim;
  gh_isEmpty : prim;
  gh_isLocked : prim;
  gh_isPrivate : prim;
  gh_isTemplate : prim;
  gh_licenseInfo : option LicenseInfo;
  gh_releases_nodes : list ReleaseNode;
  gh_repositoryTopics_nodes : list TopicNode;
  gh_history_edges : list Contributor (* edge.node.author of each edge *)
}.

Definition removeNull (array : list jsval) : list jsval :=
  List.filter (fun val => negb (is_null val)) array.

Definition buildTopics (githubObject : RepositoryObject) : list jsval :=
  let nodes := gh_repositoryTopics_nodes githubObject in
  if (0 <? length nodes)%nat then
    fold_left (fun topics node =>
                 topics ++ [JObj [("uri", JPrim (node_url node));
                                  ("term", JPrim (node_topic_name node));
                                  ("vocabulary", JPrim (PStr ""))]])
              nodes []
  else [].

Record Author := {
  author_name : prim;
  author_type : prim;
  author_email : prim;
  author_maintainer : prim
}.

Definition Author_obj (a : Author) : jsval :=
  JObj [("name", JPrim (author_name a)); ("type", JPrim (author_type a));
        ("email", JPrim (author_email a));
        ("maintainer", JPrim (author_maintainer a))].

(** The author object built for one contributor. *)
Definition contributor_author (contributor : Contributor) : Author :=
  {| author_name := contributor_name contributor;
     author_type := PStr "person";
     author_email := js_or (contributor_email contributor) (PStr "");
     author_maintainer := PBool false |}.

Definition buildAuthors (githubObject : RepositoryObject) : list Author :=
  let contributors := gh_history_edges githubObject in
  fold_left (fun authors contributor =>
               let author := contributor_author contributor in
               if negb (existsb (fun existingAuthor =>
                                   strict_eq (author_email existingAuthor)
                                             (author_email author)) authors)
               then authors ++ [author]
               else authors)
            contributors [].

Definition buildLicense (githubObject : RepositoryObject) : list jsval :=
  match gh_licenseInfo githubObject with
  | Some info => [JObj [("name", JPrim (licenseInfo_name info));
                        ("url", JPrim (licenseInfo_url info))]]
  | None => []
  end.

Definition githubMetadata (ghObject : RepositoryObject) : MetadataRecord :=
  list_to_map [
    ("name", JPrim (gh_name ghObject));
    ("label", JArr [JPrim (gh_name ghObject)]);
    ("description", JArr (removeNull [JPrim (gh_description ghObject)]));
    ("links", JArr (removeNull [JPrim (gh_mirrorUrl ghObject)]));
    ("webpage", JArr (removeNull [JPrim (gh_homepageUrl ghObject)]));
    ("isDisabled", JPrim (gh_isDisabled ghObject));
    ("isEmpty", JPrim (gh_isEmpty ghObject));
    ("isLocked", JPrim (gh_isLocked ghObject));
    ("isPrivate", JPrim (gh_isPrivate ghObject));
    ("isTemplate", JPrim (gh_isTemplate ghObject));
    ("version", JArr (map (fun node => JPrim (node_tagName node))
                          (gh_releases_nodes ghObject)));
    ("license", JArr (buildLicense ghObject));
    ("repository", JArr (removeNull [JPrim (gh_url ghObject)]));
    ("topics", JArr (buildTopics ghObject));
    ("operations", JArr []);
    ("authors", JArr (map Author_obj (buildAuthors ghObject)));
    ("bioschemas", JPrim (PBool false));
    ("contribPolicy", JArr []);
    ("dependencies", JArr []);
    ("documentation", JArr []);
    ("download", JArr []);
    ("edam_operations", JArr []);
    ("edam_topics", JArr []);
    ("https", JPrim (PBool true));
    ("input", JArr []);
    ("inst_instr", JPrim (PBool false));
    ("operational", JPrim (PBool false));
    ("os", JArr []);
    ("output", JArr []);
    ("publication", JArr []);
    ("semantics", JObj [("inputs", JArr []); ("outputs", JArr []);
                        ("topics", JArr []); ("operations", JArr [])]);
    ("source", JArr [JPrim (PStr "github")]);
    ("src", JArr []);
    ("ssl", JPrim (PBool true));
    ("tags", JArr []);
    ("test", JArr []);
    ("type", JPrim (PStr ""))
  ].

(** ** List-ID Preparer *)

Definition fields : list string :=
  [ "edam_topics"; "edam_operations"; "documentation"; "description";
    "webpage"; "license"; "src"; "links"; "topics"; "operations"; "input";
    "output"; "repository"; "dependencies"; "os"; "authors"; "publication" ].

(** [for (var item of v)]: arrays and strings are iterable (a string yields
    its characters), anything else is a TypeError. *)
Definition iterate (v : jsval) : outcome (list jsval) :=
  match v with
  | JArr xs => Returned xs
  | JPrim (PStr s) =>
      Returned (map (fun c => JPrim (PStr (String c ""))) (list_ascii_of_string s))
  | _ => Thrown "TypeError"
  end.

(** The inner loop: [n] counts from 0, [new_field] collects the pairs. *)
Definition number_items (items : list jsval) : list jsval :=
  snd (fold_left (fun '(n, new_field) item =>
                    ((n + 1)%Z,
                     new_field ++ [JObj [("term", item); ("id", JPrim (PNum n))]]))
                 items (0%Z, [])).

Definition prepare_field (field : string) : M unit :=
  do v <- get_field field;
  match iterate v with
  | Returned items => set_field field (JArr (number_items items))
  | Thrown e => throw e
  end.

Fixpoint for_each {A} (xs : list A) (body : A -> M unit) : M unit :=
  match xs with
  | [] => ret tt
  | x :: xs' => run body x; for_each xs' body
  end.

(** [PrepareListsIds(metadata)]: the outcome of the call and the record it
    leaves (the returned value is the record itself). *)
Definition PrepareListsIds : M unit := for_each fields prepare_field.

(** ** Document Classifier *)

Record TreeEntry := { entry_name : string; entry_type : string }.
Record DocumentationEntry := { doc_type : string; doc_url : string }.

Definition docDirs : list string := ["docs"; "documentation"; "example"].

Definition docTypes : list (string * list string) :=
  [ ("readme", ["README.md"; "README.txt"]);
    ("contributing", ["CONTRIBUTING.md"; "CONTRIBUTING.txt"]);
    ("license", ["LICENSE.md"; "LICENSE.txt"; "LICENSE"]);
    ("code_of_conduct", ["CODE_OF_CONDUCT.md"; "CODE_OF_CONDUCT.txt"]);
    ("changelog", ["CHANGELOG.md"; "CHANGELOG.txt"]);
    ("installation", ["INSTALL.md"; "INSTALL.txt"; "INSTALL"]);
    ("usage", ["USAGE.md"; "USAGE.txt"; "USAGE"]);
    ("api", ["API.md"; "API.txt"; "API"]);
    ("faq", ["FAQ.md"; "FAQ.txt"; "FAQ"]);
    ("tutorial", ["TUTORIAL.md"; "TUTORIAL.txt"; "TUTORIAL"]);
    ("requirements", ["REQUIREMENTS.md"; "REQUIREMENTS.txt"; "REQUIREMENTS"]);
    ("citation", ["CITATION.md"; "CITATION.txt"; "CITATION"; "CITATION.cff"]) ].

Definition startsWith (s p : string) : bool := String.prefix p s.

Definition endsWith (s p : string) : bool :=
  (String.length p <=? String.length s)%nat
  && String.eqb (substring (String.length s - String.length p)
                           (String.length p) s) p.

(** [toUpperCase] on the ASCII letters; other characters are kept. *)
Definition upper_char (c : ascii) : ascii :=
  let n := nat_of_ascii c in
  if ((97 <=? n) && (n <=? 122))%nat then ascii_of_nat (n - 32) else c.

Fixpoint toUpperCase (s : string) : string :=
  match s with
  | EmptyString => EmptyString
  | String c s' => String (upper_char c) (toUpperCase s')
  end.

Definition includes (xs : list string) (x : string) : bool :=
  existsb (String.eqb x) xs.

(** The template literal of both return statements. *)
Definition blob_url (owner repo dir name : string) : string :=
  "https://github.com/" +:+ owner +:+ "/" +:+ repo +:+ "/blob/main/"
    +:+ (if negb (String.eqb dir "") then dir +:+ "/" else "") +:+ name.

(** The [for ... of Object.entries(docTypes)] loop with its early return. *)
Fixpoint match_docType (docTypes : list (string * list string)) (name : string)
  : option string :=
  match docTypes with
  | [] => None
  | (type, filenames) :: rest =>
      if includes (map toUpperCase filenames) (toUpperCase name) then Some type
      else match_docType rest name
  end.

Definition processFiles (files : list TreeEntry) (owner repo : string)
    (docTypes : list (string * list string)) (dir : string)
  : list DocumentationEntry :=
  map (fun file =>
         match match_docType docTypes (entry_name file) with
         | Some type =>
             {| doc_type := type;
                doc_url := blob_url owner repo dir (entry_name file) |}
         | None =>
             {| doc_type := if negb (String.eqb dir "") then dir else "root";
                doc_url := blob_url owner repo dir (entry_name file) |}
         end)
      (List.filter (fun file =>
                      String.eqb (entry_type file) "blob"
                      && (endsWith (entry_name file) ".md"
                          || endsWith (entry_name file) ".txt"))
                   files).

(** [fetchDocumentationFiles]; [fetchDirectoryContents path] stands for the
    listing [fetchDirectoryContentsGraphQL] obtains (empty for a directory
    that does not exist). *)
Definition fetchDocumentationFiles
    (fetchDirectoryContents : string -> list TreeEntry) (owner repo : string)
  : list DocumentationEntry :=
  let rootFiles := fetchDirectoryContents "" in
  let documentationFiles := [] ++ processFiles rootFiles owner repo docTypes "" in
  fold_left (fun documentationFiles dir =>
               let dirFiles := fetchDirectoryContents dir in
               documentationFiles ++ processFiles dirFiles owner repo docTypes dir)
            docDirs documentationFiles.

(** ** CITATION.cff Mapper *)

Record CffAuthor := { given_names : prim; family_names : prim }.

Record PreferredCitation := {
  pc_title : prim; pc_year : prim; pc_doi : prim; pc_url : prim
}.

(** The document [yaml.load] returns, with the keys the mapper reads.  A
    scalar key that is absent reads [PUndefined]; [cff_authors] is [None]
    when the key is absent or null (reading its [.length] then throws) and
    [cff_preferred_citation] is [None] when that key is absent or null. *)
Record CitationData := {
  cff_license : prim;
  cff_title : prim;
  cff_authors : option (list CffAuthor);
  cff_version : prim;
  cff_preferred_citation : option PreferredCitation
}.

(** The object the [authors.map] callback returns. *)
Definition citation_author (author : CffAuthor) : jsval :=
  JObj [("name", JPrim (PStr (ToString (given_names author) +:+ " "
                              +:+ ToString (family_names author))));
        ("email", JPrim (PStr ""));
        ("maintainer", JPrim (PBool false));
        ("type", JPrim (PStr "person"))].

Definition citation_publication (pc : PreferredCitation) : jsval :=
  JObj [("title", JPrim (js_or (pc_title pc) (PStr "")));
        ("year", JPrim (js_or (pc_year pc) (PStr "")));
        ("doi", JPrim (js_or (pc_doi pc) (PStr "")));
        ("url", JPrim (js_or (pc_url pc) (PStr "")))].

(** The body of the [try] block once the YAML is loaded; [None] is a
    document that is null or undefined, on which the first property access
    throws. *)
Definition map_citation (loaded : option CitationData) : M unit :=
  match loaded with
  | None => throw "TypeError"
  | Some citationData =>
      run when (truthy (cff_license citationData))
            (push_field "license"
               (JObj [("name", JPrim (cff_license citationData));
                      ("url", JPrim (PStr ""))]));
      run when (truthy (cff_title citationData))
            (push_field "label" (JPrim (cff_title citationData)));
      run match cff_authors citationData with
          | None => throw "TypeError" (* [.length] of undefined *)
          | Some authors =>
              when (0 <? length authors)%nat
                (set_field "authors" (JArr (map citation_author authors)))
          end;
      run when (truthy (cff_version citationData))
            (push_field "version" (JPrim (cff_version citationData)));
      match cff_preferred_citation citationData with
      | Some pc => push_field "publication" (citation_publication pc)
      | None => ret tt
      end
  end.

(** [parseCitationCFF(citationContent, metadata)]: both the [try] block and
    the [catch] block return the record, as the body left it. *)
Definition parseCitationCFF
    (yaml_load : string -> outcome (option CitationData))
    (citationContent : string) (metadata : MetadataRecord) : MetadataRecord :=
  match yaml_load citationContent with
  | Thrown _ => metadata
  | Returned citationData => snd (map_citation citationData metadata)
  end.

(** ** BibTeX Extractor *)

Definition is_char (a b : ascii) : bool := Ascii.eqb a b.

(** [content.replace(/`/g, '')]. *)
Fixpoint remove_backticks (s : string) : string :=
  match s with
  | EmptyString => EmptyString
  | String c s' =>
      if is_char c "`" then remove_backticks s' else String c (remove_backticks s')
  end.

(** The characters [\s] and [trim] treat as white space, among the 8-bit
    ones: tab, line feed, vertical tab, form feed, carriage return, space and
    the no-break space. *)
Definition is_space (c : ascii) : bool :=
  let n := nat_of_ascii c in
  ((9 <=? n) && (n <=? 13) || (n =? 32) || (n =? 160))%nat.

(** The longest prefix whose characters satisfy [p], and what follows it. *)
Fixpoint span (p : ascii -> bool) (s : string) : string * string :=
  match s with
  | EmptyString => (EmptyString, EmptyString)
  | String c s' =>
      if p c then let '(a, b) := span p s' in (String c a, b)
      else (EmptyString, s)
  end.

(** A literal of the pattern matched under the [i] flag: the text consumed and
    the rest. *)
Fixpoint ci_take (pat s : string) : option (string * string) :=
  match pat with
  | EmptyString => Some (EmptyString, s)
  | String p pat' =>
      match s with
      | EmptyString => None
      | String c s' =>
          if is_char (upper_char p) (upper_char c) then
            match ci_take pat' s' with
            | Some (a, b) => Some (String c a, b)
            | None => None
            end
          else None
      end
  end.

(** [\s*{[^,]+,] : the text consumed and the rest. *)
Definition header_tail (s : string) : option (string * string) :=
  let '(ws, s1) := span is_space s in
  match s1 with
  | String c s2 =>
      if is_char c "{" then
        let '(key, s3) := span (fun c => negb (is_char c ",")) s2 in
        match key, s3 with
        | String _ _, String c3 s4 =>
            if is_char c3 "," then Some (ws +:+ "{" +:+ key +:+ ",", s4)
            else None
        | _, _ => None
        end
      else None
  | EmptyString => None
  end.

Definition keyword_then_tail (keyword s : string) : option (string * string) :=
  match ci_take keyword s with
  | Some (kw, s1) =>
      match header_tail s1 with
      | Some (tl, rest) => Some (kw +:+ tl, rest)
      | None => None
      end
  | None => None
  end.

(** [/@(article|INPROCEEDINGS)\s*{[^,]+,/i] matched at the start of [s]:
    [match[0]] and the text after it.  The second alternative is tried when
    the first one, or what follows it, fails. *)
Definition startRegex (s : string) : option (string * string) :=
  match s with
  | String c s1 =>
      if is_char c "@" then
        match keyword_then_tail "article" s1 with
        | Some (m, rest) => Some (String c m, rest)
        | None =>
            match keyword_then_tail "INPROCEEDINGS" s1 with
            | Some (m, rest) => Some (String c m, rest)
            | None => None
            end
        end
      else None
  | EmptyString => None
  end.

(** The [for] loop from the character after the match: [Some entry] when the
    brace counter reaches 0, [None] when the text ends first. *)
Fixpoint close_entry (rest : string) (braceCount : Z) (entry : string)
  : option string :=
  match rest with
  | EmptyString => None
  | String char rest' =>
      let entry := entry +:+ String char EmptyString in
      let braceCount :=
        if is_char char "{" then (braceCount + 1)%Z
        else if is_char char "}" then (braceCount - 1)%Z
        else braceCount in
      if (braceCount =? 0)%Z then Some entry
      else close_entry rest' braceCount entry
  end.

(** The [while ((match = startRegex.exec(content)) !== null)] loop.  [content]
    is the text from the current search position on and [covered] the number
    of its leading characters that lie before [lastIndex] (inside the
    previous match), where the next search may not start. *)
Fixpoint exec_loop (content : string) (covered : nat) (entries : list string)
  : list string :=
  match content with
  | EmptyString => entries
  | String _ content' =>
      match covered with
      | S covered' => exec_loop content' covered' entries
      | O =>
          match startRegex content with
          | Some (match0, rest) =>
              let entries :=
                match close_entry rest 1 match0 with
                | Some entry => entries ++ [entry]
                | None => entries
                end in
              exec_loop content' (String.length match0 - 1) entries
          | None => exec_loop content' 0 entries
          end
      end
  end.

(** [normalize] is [String.prototype.normalize('NFKD')]. *)
Definition extractBibTeXEntries (normalize : string -> string) (content : prim)
  : list string :=
  let content := ToString content in
  let content := remove_backticks content in
  let content := normalize content in
  exec_loop content 0 [].

(** ** Publication Builder *)

Record Publication := {
  pub_title : prim; pub_year : prim; pub_doi : prim; pub_url : prim
}.

Fixpoint trimStart (s : string) : string :=
  match s with
  | EmptyString => EmptyString
  | String c s' => if is_space c then trimStart s' else s
  end.

Definition trim (s : string) : string :=
  String.rev (trimStart (String.rev (trimStart s))).

(** [s.slice(1, -1)]. *)
Definition slice_1_m1 (s : string) : string :=
  substring 1 (String.length s - 2) s.

(** What the loop of [cleanBracketsInObject] does to one property value. *)
Definition clean_value (v : prim) : prim :=
  match v with
  | PStr s =>
      if startsWith s "{" && endsWith s "}" then PStr (trim (slice_1_m1 s))
      else v
  | _ => v
  end.

Definition cleanBracketsInObject (obj : Publication) : Publication :=
  {| pub_title := clean_value (pub_title obj);
     pub_year := clean_value (pub_year obj);
     pub_doi := clean_value (pub_doi obj);
     pub_url := clean_value (pub_url obj) |}.

(** [parsed[key].NAME] on the fields of a parsed entry. *)
Fixpoint entry_field (entry : list (string * prim)) (name : string) : prim :=
  match entry with
  | [] => PUndefined
  | (k, v) :: entry' => if String.eqb k name then v else entry_field entry' name
  end.

(** The body of the [try] block for one entry.  [parse] is the
    [bibtex-parser] function: it throws, or returns an object from citation
    keys to entries, given here as the list of its keys in order.  With no
    key at all, [parsed[key]] is undefined and reading [.TITLE] throws. *)
Definition entry_publication
    (parse : string -> outcome (list (string * list (string * prim))))
    (entry : string) : outcome Publication :=
  match parse entry with
  | Thrown e => Thrown e
  | Returned [] => Thrown "TypeError"
  | Returned ((key, parsed_key) :: _) =>
      let new_pub :=
        {| pub_title := js_or (entry_field parsed_key "TITLE") (PStr "");
           pub_year := js_or (entry_field parsed_key "YEAR") (PStr "");
           pub_doi := js_or (entry_field parsed_key "DOI") (PStr "");
           pub_url := js_or (entry_field parsed_key "URL") (PStr "") |} in
      Returned (cleanBracketsInObject new_pub)
  end.

Definition build_publications
    (parse : string -> outcome (list (string * list (string * prim))))
    (bibtexEntries : list string) : list Publication :=
  fold_left (fun publications entry =>
               match entry_publication parse entry with
               | Returned new_pub => publications ++ [new_pub]
               | Thrown _ => publications
               end)
            bibtexEntries [].

Definition extractJournalPublication
    (normalize : string -> string)
    (parse : string -> outcome (list (string * list (string * prim))))
    (content : prim) : list Publication :=
  let bibtexEntries := extractBibTeXEntries normalize content in
  build_publications parse bibtexEntries.

(** ** Branch names (metadata updater) *)

(** The numbers [generateBranchName] computes with: doubles that are NaN,
    a non-negative integer, or Infinity. *)
Inductive number : Type :=
| NaN
| Finite (z : Z)
| Infinity.

(** The double nearest to the integer [z >= 0], ties to even. *)
Definition to_double (z : Z) : number :=
  if (z <? 2 ^ 53)%Z then Finite z
  else
    let e := (Z.log2 z - 52)%Z in
    let q := (z / 2 ^ e)%Z in
    let r := (z mod 2 ^ e)%Z in
    let half := (2 ^ (e - 1))%Z in
    let q' := if (r <? half)%Z then q
              else if (half <? r)%Z then (q + 1)%Z
              else if Z.even q then q else (q + 1)%Z in
    let v := (q' * 2 ^ e)%Z in
    if (v <? 2 ^ 1024)%Z then Finite v else Infinity.

Definition is_digit (c : ascii) : bool :=
  let n := nat_of_ascii c in ((48 <=? n) && (n <=? 57))%nat.

Definition digit_value (c : ascii) : Z := Z.of_nat (nat_of_ascii c - 48).

(** The integer a string of decimal digits denotes. *)
Definition digits_value (ds : string) : Z :=
  fold_left (fun acc c => (acc * 10 + digit_value c)%Z) (list_ascii_of_string ds) 0%Z.

Fixpoint string_forall (p : ascii -> bool) (s : string) : bool :=
  match s with
  | EmptyString => true
  | String c s' => p c && string_forall p s'
  end.

Fixpoint strip_prefix (p s : string) : option string :=
  match p with
  | EmptyString => Some s
  | String a p' =>
      match s with
      | EmptyString => None
      | String b s' => if is_char a b then strip_prefix p' s' else None
      end
  end.

(** [/^evaluator(?:-(\d+))?$/.exec(branch)]: [None] when there is no match,
    otherwise the capture group ([None] when it did not take part). *)
Definition re_exec (branch : string) : option (option string) :=
  match strip_prefix "evaluator" branch with
  | Some EmptyString => Some None
  | Some (String c digits) =>
      if is_char c "-" && negb (String.eqb digits "")
         && string_forall is_digit digits
      then Some (Some digits)
      else None
  | None => None
  end.

(** [parseInt(group, 10)] on a capture group of the pattern. *)
Definition parseInt (group : option string) : number :=
  match group with
  | None => NaN
  | Some ds => to_double (digits_value ds)
  end.

(** [x || 0]. *)
Definition or_zero (x : number) : number :=
  match x with
  | NaN => Finite 0
  | Finite z => if (z =? 0)%Z then Finite 0 else x
  | Infinity => x
  end.

Definition number_max (a b : number) : number :=
  match a, b with
  | NaN, _ | _, NaN => NaN
  | Infinity, _ | _, Infinity => Infinity
  | Finite x, Finite y => Finite (Z.max x y)
  end.

Definition plus_one (x : number) : number :=
  match x with
  | Finite z => to_double (z + 1)
  | _ => x
  end.

Definition number_eqb (a b : number) : bool :=
  match a, b with
  | Finite x, Finite y => (x =? y)%Z
  | Infinity, Infinity => true
  | _, _ => false
  end.

(** Number::toString of a finite [x >= 10^21]: the digits [s] (with [k] of
    them, [k] least) and the exponent [n] with [s * 10^(n-k)] rounding to
    [x], printed as [d.ddde+(n-1)]. *)
Definition exponent_candidates (x k : Z) : list (Z * Z) :=
  let nd := Z.of_nat (String.length (pretty x)) in
  flat_map (fun n =>
              let p := (10 ^ (n - k))%Z in
              let s0 := (x / p)%Z in
              List.filter (fun '(_, s) =>
                             (10 ^ (k - 1) <=? s)%Z && (s <? 10 ^ k)%Z
                             && number_eqb (to_double (s * p)) (Finite x))
                          [(n, s0); (n, (s0 + 1)%Z)])
           [nd; (nd + 1)%Z].

Definition closest (x k : Z) (c1 c2 : Z * Z) : Z * Z :=
  let dist := fun '(n, s) => Z.abs (s * 10 ^ (n - k) - x) in
  if (dist c2 <? dist c1)%Z then c2
  else if (dist c1 <? dist c2)%Z then c1
  else if Z.even (snd c1) then c1 else c2.

Fixpoint shortest_digits (fuel : nat) (x k : Z) : option (Z * Z) :=
  match fuel with
  | O => None
  | S fuel' =>
      match exponent_candidates x k with
      | c :: cs => Some (fold_left (closest x k) cs c)
      | [] => shortest_digits fuel' x (k + 1)%Z
      end
  end.

Definition exponent_notation (x : Z) : string :=
  match shortest_digits 17 x 1 with
  | Some (n, s) =>
      match pretty s with
      | String d EmptyString => String d ("e+" +:+ pretty (n - 1)%Z)
      | String d ds => String d ("." +:+ ds +:+ "e+" +:+ pretty (n - 1)%Z)
      | EmptyString => EmptyString
      end
  | None => EmptyString
  end.

Definition number_toString (x : number) : string :=
  match x with
  | NaN => "NaN"
  | Infinity => "Infinity"
  | Finite z => if (z <? 10 ^ 21)%Z then pretty z else exponent_notation z
  end.

(** ToString of an array element handed to [re.exec]. *)
Fixpoint ToString_val (v : jsval) : string :=
  match v with
  | JPrim p => ToString p
  | JArr xs =>
      String.concat ","
        (map (fun x => match x with
                       | JPrim PUndefined | JPrim PNull => EmptyString
                       | _ => ToString_val x
                       end) xs)
  | JObj _ => "[object Object]"
  end.

(** The callback of [branches.map] followed by the filter of the non-null
    results. *)
Definition evaluator_number (branch : jsval) : option number :=
  match re_exec (ToString_val branch) with
  | Some group => Some (or_zero (parseInt group))
  | None => None
  end.

Definition generateBranchName (branches : jsval) : outcome string :=
  match branches with
  | JArr names =>
      let evaluator_branches := omap evaluator_number names in
      let nextNumber :=
        match evaluator_branches with
        | x :: xs => plus_one (fold_left number_max xs x)
        | [] => Finite 1
        end in
      Returned ("evaluator-" +:+ number_toString nextNumber)
  | _ => Thrown "Invalid input: allBranchNames must be an array."
  end.

(** ** Publication Deduplicator *)

(** The own property [name] of an object literal, [undefined] when it has
    none. *)
Fixpoint own_property (props : list (string * jsval)) (name : string) : jsval :=
  match props with
  | [] => JPrim PUndefined
  | (k, v) :: props' => if String.eqb k name then v else own_property props' name
  end.

(** [v.name], for a name that no prototype defines (such as [title] or
    [doi]): a TypeError on null and undefined, the own property of an
    object, [undefined] on any other value. *)
Definition get_prop (v : jsval) (name : string) : outcome jsval :=
  match v with
  | JPrim PUndefined | JPrim PNull => Thrown "TypeError"
  | JObj props => Returned (own_property props name)
  | _ => Returned (JPrim PUndefined)
  end.

(** The template literal [`${publication.title}-${publication.doi}`]. *)
Definition publication_identifier (publication : jsval) : outcome string :=
  match get_prop publication "title" with
  | Thrown e => Thrown e
  | Returned title =>
      match get_prop publication "doi" with
      | Thrown e => Thrown e
      | Returned doi => Returned (ToString_val title +:+ "-" +:+ ToString_val doi)
      end
  end.

(** The [forEach] of [removeDuplicatePublications]: [seen] is the Set of
    identifiers, [uniquePublications] the list built so far. *)
Fixpoint unique_loop (publications : list jsval) (seen : gset string)
    (uniquePublications : list jsval) : outcome (list jsval) :=
  match publications with
  | [] => Returned uniquePublications
  | publication :: rest =>
      match publication_identifier publication with
      | Thrown e => Thrown e
      | Returned identifier =>
          if bool_decide (identifier ∈ seen)
          then unique_loop rest seen uniquePublications
          else unique_loop rest ({[identifier]} ∪ seen)
                 (uniquePublications ++ [publication])
      end
  end.

(** [removeDuplicatePublications(publications)]: [forEach] exists on arrays
    only. *)
Definition removeDuplicatePublications (publications : jsval)
  : outcome (list jsval) :=
  match publications with
  | JArr items => unique_loop items ∅ []
  | _ => Thrown "TypeError"
  end.

(** ** Pipeline Orchestrator *)

(** The objects the classifier and the publication builder return, as
    values of the record. *)
Definition DocumentationEntry_obj (entry : DocumentationEntry) : jsval :=
  JObj [("type", JPrim (PStr (doc_type entry)));
        ("url", JPrim (PStr (doc_url entry)))].

Definition Publication_obj (new_pub : Publication) : jsval :=
  JObj [("title", JPrim (pub_title new_pub)); ("year", JPrim (pub_year new_pub));
        ("doi", JPrim (pub_doi new_pub)); ("url", JPrim (pub_url new_pub))].

(** The [if (citationContent)] block of the metadata routes. *)
Definition citation_step (yaml_load : string -> outcome (option CitationData))
    (citationContent : string) : M unit :=
  run set_field "citation" (JPrim (PStr citationContent));
  run (fun metadata =>
         (Returned tt, parseCitationCFF yaml_load citationContent metadata));
  do publication <- get_field "publication";
  match removeDuplicatePublications publication with
  | Returned uniquePublications =>
      set_field "publication" (JArr uniquePublications)
  | Thrown e => throw e
  end.

(** The body of the [try] block of [router.post('/metadata')] from the
    repository object on, given what the providers returned: the
    repository object, the documentation entries, the README text and the
    CITATION.cff text ([PNull] and [None] when there is none).  The outcome
    says whether the block threw; the record is the metadata object. *)
Definition metadata_route
    (yaml_load : string -> outcome (option CitationData))
    (normalize : string -> string)
    (parse : string -> outcome (list (string * list (string * prim))))
    (repository : RepositoryObject) (documentation : list DocumentationEntry)
    (readmeContent : prim) (citationContent : option string)
    (prepare readme_extract : bool) : outcome unit * MetadataRecord :=
  (run set_field "documentation" (JArr (map DocumentationEntry_obj documentation));
   run when readme_extract
         (set_field "publication"
            (JArr (map Publication_obj
                       (extractJournalPublication normalize parse readmeContent))));
   run match citationContent with
       | Some text =>
           if negb (String.eqb text "") then citation_step yaml_load text
           else ret tt
       | None => ret tt
       end;
   when prepare PrepareListsIds)
    (githubMetadata repository).


(** ** Route handlers of the extractor *)

(** An error object as a provider throws it, with the two properties the
    handlers read.  It is an object: calling it is a TypeError. *)
Record Failure := { failure_status : prim; failure_message : string }.

(** What the awaited calls of a metadata route gave: [authenticated] is the
    error of the authentication steps, if any; the repository object and
    the documentation entries are returned or an error is thrown;
    [getReadmeContent] and [getCitationContent] catch their errors and
    return null. *)
Record Providers := {
  authenticated : option Failure;
  repository_object : RepositoryObject + Failure;
  documentation_files : list DocumentationEntry + Failure;
  readme_text : prim;
  citation_text : option string
}.

(** What becomes of a request: a response is sent, with its HTTP status and
    the [data] and [message] of its body, or the handler's promise is
    rejected and nothing is sent. *)
Inductive Handled : Type :=
| Sent (status : prim) (data : option MetadataRecord) (message : prim)
| Rejected (msg : string).

(** The [try] block of a metadata route: the record to send, or the error
    the [catch] block receives. *)
Definition try_metadata
    (yaml_load : string -> outcome (option CitationData))
    (normalize : string -> string)
    (parse : string -> outcome (list (string * list (string * prim))))
    (providers : Providers) (prepare readme_extract : bool)
  : MetadataRecord + Failure :=
  match authenticated providers with
  | Some error => inr error
  | None =>
      match repository_object providers with
      | inr error => inr error
      | inl repository =>
          match documentation_files providers with
          | inr error => inr error
          | inl documentation =>
              match metadata_route yaml_load normalize parse repository
                      documentation (readme_text providers)
                      (citation_text providers) prepare readme_extract with
              | (Returned _, metadata) => inl metadata
              | (Thrown msg, _) =>
                  inr {| failure_status := PUndefined; failure_message := msg |}
              end
          end
      end
  end.

(** [router.post('/metadata')].  In its [catch (error)] block the name
    [error] is the caught object, not the logger of the module, and the
    first statement calls it. *)
Definition metadata_handler
    (yaml_load : string -> outcome (option CitationData))
    (normalize : string -> string)
    (parse : string -> outcome (list (string * list (string * prim))))
    (providers : Providers) (prepare readme_extract : bool) : Handled :=
  match try_metadata yaml_load normalize parse providers prepare readme_extract with
  | inl metadata => Sent (PNum 200) (Some metadata) PUndefined
  | inr error => Rejected "TypeError"
  end.

(** [router.post('/metadata/user')], whose [catch] block logs through
    [console.error] and answers. *)
Definition metadata_user_handler
    (yaml_load : string -> outcome (option CitationData))
    (normalize : string -> string)
    (parse : string -> outcome (list (string * list (string * prim))))
    (providers : Providers) (prepare : bool) : Handled :=
  match try_metadata yaml_load normalize parse providers prepare true with
  | inl metadata => Sent (PNum 200) (Some metadata) PUndefined
  | inr error =>
      Sent (js_or (failure_status error) (PNum 500)) None
           (js_or (PStr (failure_message error)) (PStr "An error occurred"))
  end.

(** ** Metadata Updater *)

(** The requests the updater sends through [octokit.request], with the
    parameters it gives, the constant ones apart (the committer of a PUT,
    the media type of a pull request).  [sha] of a PUT is [None] when the
    property is not set. *)
Inductive Request : Type :=
| GET_branch (owner repo branch : string)
| GET_branches (owner repo : string)
| POST_git_refs (owner repo ref : string) (sha : jsval)
| GET_contents (owner repo path : string)
| PUT_contents (owner repo path branch : string) (message : prim)
    (content : string) (sha : option jsval)
| POST_pulls (owner repo : string) (title : prim) (head : string) (base : jsval)
    (body : prim).

Record Response := { resp_status : Z; resp_data : jsval }.

(** The GitHub service behind an Octokit instance: the answer to a request,
    given the requests sent before it. *)
Definition Service : Type := list Request -> Request -> Response + Failure.

(** Computations of the updater: the log of the requests sent so far is
    threaded through, and an error may be thrown. *)
Definition U (A : Type) : Type := list Request -> (A + Failure) * list Request.

Definition retU {A} (a : A) : U A := fun log => (inl a, log).
Definition throwU {A} (error : Failure) : U A := fun log => (inr error, log).
Definition bindU {A B} (c : U A) (k : A -> U B) : U B :=
  fun log => match c log with
             | (inl a, log') => k a log'
             | (inr error, log') => (inr error, log')
             end.
(** [try { c } catch (error) { handler }]. *)
Definition catchU {A} (c : U A) (handler : Failure -> U A) : U A :=
  fun log => match c log with
             | (inl a, log') => (inl a, log')
             | (inr error, log') => handler error log'
             end.
Notation "'await' x <- c ; k" := (bindU c (fun x => k))
  (at level 10, x name, c at level 100, k at level 200).

(** [await octokit.request(...)]. *)
Definition request (octokit : Service) (r : Request) : U Response :=
  fun log => (octokit log r, log ++ [r]).

(** [new Error(message)]: an error without status. *)
Definition Error (message : string) : Failure :=
  {| failure_status := PUndefined; failure_message := message |}.

(** A property access that throws a TypeError on null and undefined. *)
Definition read (v : jsval) (name : string) : U jsval :=
  match get_prop v name with
  | Returned x => retU x
  | Thrown msg => throwU (Error msg)
  end.

(** [getOctokit]; [installation] is [None] when the authentication or
    [getInstallationOctokit] throws. *)
Definition getOctokit (installation : option Service) : U Service :=
  match installation with
  | Some octokit => retU octokit
  | None => throwU (Error "Failed to get Octokit instance for installation")
  end.

Definition getTargetBranch (octokit : Service) (owner repo branchName : string)
  : U (jsval * jsval) :=
  await resp <- request octokit (GET_branch owner repo branchName);
  let branch := resp_data resp in
  await commit <- read branch "commit";
  await mainSHA <- read commit "sha";
  await mainName <- read branch "name";
  retU (mainSHA, mainName).

(** [branches.map((branch) => branch.name)]. *)
Fixpoint branch_name_of (branches : list jsval) : U (list jsval) :=
  match branches with
  | [] => retU []
  | branch :: rest =>
      await name <- read branch "name";
      await names <- branch_name_of rest;
      retU (name :: names)
  end.

Definition getBranchesNames (octokit : Service) (owner repo : string) : U jsval :=
  await resp <- request octokit (GET_branches owner repo);
  match resp_data resp with
  | JArr branches =>
      await allBranchesNames <- branch_name_of branches;
      retU (JArr allBranchesNames)
  | _ => throwU (Error "TypeError")
  end.

Definition createBranch (octokit : Service) (owner repo branchName : string)
    (sha : jsval) : U Response :=
  catchU (request octokit
            (POST_git_refs owner repo ("refs/heads/" +:+ branchName) sha))
         (fun error =>
            throwU (Error ("Failed to create branch '" +:+ branchName
                           +:+ "' in repository '" +:+ owner +:+ "/" +:+ repo
                           +:+ "': " +:+ failure_message error))).

Definition createFile (octokit : Service)
    (owner repo branchName path content : string) (message : prim) : U Response :=
  await contents <-
    catchU (await found <- request octokit (GET_contents owner repo path);
            retU (Some found))
           (fun error =>
              if strict_eq (failure_status error) (PNum 404) then retU None
              else throwU (Error ("Failed to retrieve file at path '" +:+ path
                                  +:+ "' in repository '" +:+ owner +:+ "/"
                                  +:+ repo +:+ "': " +:+ failure_message error)));
  catchU (await sha <-
            match contents with
            | Some found =>
                if (resp_status found =? 200)%Z then
                  await sha <- read (resp_data found) "sha";
                  retU (Some sha)
                else retU None
            | None => retU None
            end;
          request octokit
            (PUT_contents owner repo path branchName message content sha))
         (fun error =>
            throwU (Error ("Failed to create or update file at path '" +:+ path
                           +:+ "' in repository '" +:+ owner +:+ "/" +:+ repo
                           +:+ "': " +:+ failure_message error))).

Definition createPullRequest (octokit : Service) (owner repo head : string)
    (base : jsval) (title body : prim) : U Response :=
  catchU (await resp <- request octokit (POST_pulls owner repo title head base body);
          await html_url <- read (resp_data resp) "html_url";
          retU resp)
         (fun error =>
            throwU (Error ("Failed to create pull request from branch '" +:+ head
                           +:+ "' to branch '" +:+ ToString_val base
                           +:+ "' in repository '" +:+ owner +:+ "/" +:+ repo
                           +:+ "': " +:+ failure_message error))).

(** The object [router.post('/metadata/pull')] sends: the one of the [try]
    block or the one of the [catch] block. *)
Inductive PullResponse : Type :=
| PullSuccess (new_branch_name : string) (head_branch_name url : jsval)
    (pullrequest_message : Response)
| PullError (code : prim) (message : string).

Definition defaultTitle : string := "Metadata/Citation for this software".

Definition defaultMessage (filename : string) : string :=
  "Description of this software (`" +:+ filename
    +:+ "`) generated by [Metadata Updater for FAIRsoft](https://github.com/apps/metadata-updater-for-fairsoft) added.".

(** The [try] block of the pull route, for a request body whose [owner],
    [repo], [filename] and [branch] are strings.  [btoa] is the global
    function, applied to the text of [metadata]. *)
Definition try_pull (btoa : string -> string) (installation : option Service)
    (owner repo filename branch : string) (metadata : jsval)
    (title message : prim) : U PullResponse :=
  let finalTitle := js_or title (PStr defaultTitle) in
  let finalMessage := js_or message (PStr (defaultMessage filename)) in
  let content := btoa (ToString_val metadata) in
  await octokit <- getOctokit installation;
  await targetBranch <- getTargetBranch octokit owner repo branch;
  let sha := fst targetBranch in
  let baseBranch := snd targetBranch in
  await branches <- getBranchesNames octokit owner repo;
  await newBranchName <-
    match generateBranchName branches with
    | Returned name => retU name
    | Thrown msg => throwU (Error msg)
    end;
  await created <- createBranch octokit owner repo newBranchName sha;
  await written <-
    createFile octokit owner repo newBranchName filename content finalMessage;
  await pullrequest <-
    createPullRequest octokit owner repo newBranchName baseBranch finalTitle
      finalMessage;
  await url <- read (resp_data pullrequest) "html_url";
  retU (PullSuccess newBranchName baseBranch url pullrequest).

(** [router.post('/metadata/pull')]: what is sent, and the requests that
    were made. *)
Definition pull_route (btoa : string -> string) (installation : option Service)
    (owner repo filename branch : string) (metadata : jsval)
    (title message : prim) : PullResponse * list Request :=
  match try_pull btoa installation owner repo filename branch metadata
          title message [] with
  | (inl resp, log) => (resp, log)
  | (inr e, log) => (PullError (failure_status e) (failure_message e), log)
  end.

(** * Vocabulary of the properties *)

(** ** Metadata Normalizer *)

(** The specification's reading of [removeNull([value])]: empty when the
    value is null or absent (undefined), the value alone otherwise. *)
Definition wrap_present_spec (value : prim) : list jsval :=
  match value with
  | PNull | PUndefined => []
  | _ => [JPrim value]
  end.

(** A repository object all of whose optional values are absent. *)
Definition absent_repository : RepositoryObject :=
  {| gh_name := PStr "repo";
     gh_description := PUndefined;
     gh_mirrorUrl := PUndefined;
     gh_homepageUrl := PUndefined;
     gh_url := PUndefined;
     gh_isDisabled := PBool false;
     gh_isEmpty := PBool false;
     gh_isLocked := PBool false;
     gh_isPrivate := PBool false;
     gh_isTemplate := PBool false;
     gh_licenseInfo := None;
     gh_releases_nodes := [];
     gh_repositoryTopics_nodes := [];
     gh_history_edges := [] |}.



(** ** List-ID Preparer *)

(** The pair the preparer makes of an element and its position. *)
Definition term_id (i : nat) (item : jsval) : jsval :=
  JObj [("term", item); ("id", JPrim (PNum (Z.of_nat i)))].

(** A record with every designated field present, and an MIT license. *)
Definition sample_record : MetadataRecord :=
  <["license" := JArr [JPrim (PStr "MIT")]]>
    (<["name" := JPrim (PStr "repo")]>
       (list_to_map (map (fun f => (f, JArr [])) fields))).

(** ** Document Classifier *)

(** The root listing of the specification's example. *)
Definition example_root_listing : list TreeEntry :=
  [ {| entry_name := "README.md"; entry_type := "blob" |};
    {| entry_name := "LICENSE"; entry_type := "blob" |};
    {| entry_name := "NOTES.md"; entry_type := "blob" |} ].

(** A provider whose root holds the example listing and whose documentation
    directories do not exist. *)
Definition example_provider (path : string) : list TreeEntry :=
  if String.eqb path "" then example_root_listing else [].

(** ** CITATION.cff Mapper *)

(** A repository whose history gives one prior author, and two citation
    files: one with an author, one without the [authors] key. *)
Definition sample_repository : RepositoryObject :=
  {| gh_name := PStr "tool";
     gh_description := PNull;
     gh_mirrorUrl := PNull;
     gh_homepageUrl := PStr "http://x";
     gh_url := PStr "https://github.com/inab/tool";
     gh_isDisabled := PBool false;
     gh_isEmpty := PBool false;
     gh_isLocked := PBool false;
     gh_isPrivate := PBool false;
     gh_isTemplate := PBool false;
     gh_licenseInfo := None;
     gh_releases_nodes := [];
     gh_repositoryTopics_nodes := [];
     gh_history_edges :=
       [ {| contributor_name := PStr "Ada"; contributor_email := PStr "ada@x.org" |};
         {| contributor_name := PStr "A. L."; contributor_email := PStr "ada@x.org" |} ] |}.

Definition citation_with_author : CitationData :=
  {| cff_license := PStr "MIT";
     cff_title := PStr "Tool";
     cff_authors := Some [ {| given_names := PStr "A"; family_names := PStr "B" |} ];
     cff_version := PStr "1.0.0";
     cff_preferred_citation := None |}.

Definition citation_without_authors : CitationData :=
  {| cff_license := PUndefined;
     cff_title := PStr "Tool";
     cff_authors := None;
     cff_version := PStr "1.0.0";
     cff_preferred_citation :=
       Some {| pc_title := PStr "Paper"; pc_year := PNum 2020;
               pc_doi := PUndefined; pc_url := PUndefined |} |}.

(** ** Publication Builder *)


(** The text has ASCII characters only. *)
Definition is_ascii_text (s : string) : bool :=
  string_forall (fun c => (nat_of_ascii c <? 128)%nat) s.

(** What is assumed of Unicode normalisation: it leaves ASCII text as it
    is. *)
Definition fixes_ascii (normalize : string -> string) : Prop :=
  forall s, is_ascii_text s = true -> normalize s = s.

(** ** BibTeX Extractor *)

(** The character [x] does not occur in [s]. *)
Definition char_free (x : ascii) (s : string) : bool :=
  string_forall (fun c => negb (is_char c x)) s.

Definition comma_free (s : string) : bool := char_free "," s.

Definition brace_free (s : string) : bool := char_free "{" s && char_free "}" s.

(** The header of an entry, in the words of the pattern: [@], the keyword
    in any case, white space, an opening brace, a non-empty key without a
    comma, and a comma. *)
Definition header_with_key (key h : string) : Prop :=
  exists kw ws,
    h = "@" +:+ kw +:+ ws +:+ "{" +:+ key +:+ ","
    /\ (toUpperCase kw = "ARTICLE" \/ toUpperCase kw = "INPROCEEDINGS")
    /\ string_forall is_space ws = true
    /\ key <> EmptyString
    /\ comma_free key = true.

(** The braces of [s] nest properly when counted from depth [d]: the depth
    never falls below zero and is zero at the end. *)
Fixpoint balanced_from (s : string) (d : Z) : bool :=
  match s with
  | EmptyString => (d =? 0)%Z
  | String c s' =>
      let d' := if is_char c "{" then (d + 1)%Z
                else if is_char c "}" then (d - 1)%Z
                else d in
      (0 <=? d')%Z && balanced_from s' d'
  end.

Definition balanced (s : string) : bool := balanced_from s 0.

(** A well-formed entry at the start of [s]: a header, a body whose braces
    nest properly, and the brace that closes the header's. *)
Definition entry_prefix (s e : string) : Prop :=
  exists key h body post,
    s = e +:+ post
    /\ e = h +:+ body +:+ "}"
    /\ header_with_key key h
    /\ balanced body = true.

(** A well-formed entry at index [p] of the text [t]. *)
Definition entry_at (t : string) (p : nat) (e : string) : Prop :=
  exists pre s, t = pre +:+ s /\ String.length pre = p /\ entry_prefix s e.

(** No header of the text has a brace in its key. *)
Definition keys_brace_free (t : string) : Prop :=
  forall pre key h post,
    t = pre +:+ h +:+ post -> header_with_key key h -> brace_free key = true.

(** No match of the pattern starts at any of the first [n] indices of [s]. *)
Fixpoint quiet (n : nat) (s : string) : bool :=
  match n, s with
  | S n', String _ s' =>
      match startRegex s with Some _ => false | None => quiet n' s' end
  | _, _ => true
  end.

(** The entry the loop pushes when its search stops at the start of [s]. *)
Definition entry_here (s : string) : list string :=
  match startRegex s with
  | Some (match0, rest) =>
      match close_entry rest 1 match0 with
      | Some entry => [entry]
      | None => []
      end
  | None => []
  end.

(** The entries found when the search stops at every index. *)
Fixpoint entries_from (s : string) : list string :=
  match s with
  | EmptyString => []
  | String _ s' => entry_here s ++ entries_from s'
  end.

(** Every match of the text leaves the indices it covers quiet. *)
Definition no_nested_match (s : string) : Prop :=
  forall a c b match0 rest,
    s = a +:+ String c b ->
    startRegex (String c b) = Some (match0, rest) ->
    quiet (String.length match0 - 1) b = true.

(** A check of [keys_brace_free] that runs: at every index where the pattern
    matches, what follows the first opening brace of the match has no
    brace. *)
Definition simple_header (h : string) : bool :=
  match snd (span (fun c => negb (is_char c "{")) h) with
  | String _ after => brace_free after
  | EmptyString => false
  end.

Fixpoint headers_simple (s : string) : bool :=
  match s with
  | EmptyString => true
  | String _ s' =>
      match startRegex s with
      | Some (h, _) => simple_header h
      | None => true
      end && headers_simple s'
  end.

(** A README with two complete entries and a truncated one. *)
Definition sample_readme : prim :=
  PStr "Cite `@article{doe2020, title={A {B} c}, year=2020}` or @InProceedings {roe21, note={x}}; draft: @article{open, title={z".

(** ** Branch names *)


Definition branch_names (names : list string) : jsval :=
  JArr (map (fun name => JPrim (PStr name)) names).

(** ** Publication Deduplicator *)

(** The value is neither null nor undefined: reading a property of it does
    not throw. *)
Definition has_properties (v : jsval) : bool :=
  match v with
  | JPrim PUndefined | JPrim PNull => false
  | _ => true
  end.

(** The identifier of a value that has properties. *)
Definition identifier_of (publication : jsval) : string :=
  match publication_identifier publication with
  | Returned identifier => identifier
  | Thrown _ => EmptyString
  end.

(** A publication object with the given title and DOI. *)
Definition titled (title doi : string) : jsval :=
  JObj [("title", JPrim (PStr title)); ("year", JPrim (PStr ""));
        ("doi", JPrim (PStr doi)); ("url", JPrim (PStr ""))].

(** Three publications, the third a repetition of the first. *)
Definition sample_publications : list jsval :=
  [titled "A" "10.1/a"; titled "B" ""; titled "A" "10.1/a"].

(** ** Metadata Normalizer *)

(** The topic object built for one node. *)
Definition topic_of (node : TopicNode) : jsval :=
  JObj [("uri", JPrim (node_url node)); ("term", JPrim (node_topic_name node));
        ("vocabulary", JPrim (PStr ""))].

(** ** List-ID Preparer *)

(** What [metadata[field]] reads. *)
Definition field_value (m : MetadataRecord) (field : string) : jsval :=
  default (JPrim PUndefined) (m !! field).

(** The characters of a string, as a [for ... of] loop yields them. *)
Definition characters (s : string) : list jsval :=
  map (fun c => JPrim (PStr (String c ""))) (list_ascii_of_string s).

(** [sample_record] with a string for description, and without its
    description. *)
Definition record_with_text : MetadataRecord :=
  <["description" := JPrim (PStr "ab")]> sample_record.

Definition record_without_description : MetadataRecord :=
  delete "description" sample_record.

(** ** CITATION.cff Mapper *)

(** The field holds in [m'] what it holds in [m], or the array of [m] with
    one more element, which is neither null nor undefined, at its end. *)
Definition kept_or_pushed (m m' : MetadataRecord) (field : string) : Prop :=
  m' !! field = m !! field
  \/ exists xs v,
       m !! field = Some (JArr xs)
       /\ m' !! field = Some (JArr (xs ++ [v]))
       /\ has_properties v = true.

(** What one guarded [push] statement can do to the record: nothing, or,
    when the guard holds and the field holds an array, append the value. *)
Definition pushed (b : bool) (field : string) (v : jsval)
    (m m' : MetadataRecord) : Prop :=
  m' = m
  \/ (b = true
      /\ exists xs, m !! field = Some (JArr xs)
                    /\ m' = <[field := JArr (xs ++ [v])]> m).

(** What the statement on the authors can do: nothing, or replace them by
    the authors of a file that has some. *)
Definition replaced_authors (citationData : CitationData)
    (m m' : MetadataRecord) : Prop :=
  m' = m
  \/ exists author authors,
       cff_authors citationData = Some (author :: authors)
       /\ m' = <["authors" := JArr (map citation_author (author :: authors))]> m.

(** What the statement on the preferred citation can do. *)
Definition pushed_citation (citationData : CitationData)
    (m m' : MetadataRecord) : Prop :=
  m' = m
  \/ exists pc xs,
       cff_preferred_citation citationData = Some pc
       /\ m !! "publication" = Some (JArr xs)
       /\ m' = <["publication" := JArr (xs ++ [citation_publication pc])]> m.

(** In a chain of such steps: the record is left as it is by every
    statement that follows. *)
Ltac stops_at m :=
  repeat (exists m; split; [now left |]); now left.

(** The license object and the array suffixes the mapper appends. *)
Definition citation_license (citationData : CitationData) : jsval :=
  JObj [("name", JPrim (cff_license citationData)); ("url", JPrim (PStr ""))].



(** ** Publication Builder *)

(** The value is a string or is truthy: none of undefined, null, false and
    0. *)
Definition filled (v : prim) : Prop :=
  (exists s, v = PStr s) \/ truthy v = true.

(** ** Branch names *)


(** ** Pipeline Orchestrator *)

(** The publications of the README as the route stores them. *)
Definition readme_publications (normalize : string -> string)
    (parse : string -> outcome (list (string * list (string * prim))))
    (readmeContent : prim) (readme_extract : bool) : list jsval :=
  if readme_extract
  then map Publication_obj (extractJournalPublication normalize parse readmeContent)
  else [].

(** The citation text the route acts on: a text that is not empty. *)
Definition citation_found (citationContent : option string) : option string :=
  match citationContent with
  | Some text => if String.eqb text "" then None else Some text
  | None => None
  end.

(** The fields the route may change before the preparer runs. *)
Definition route_fields : list string :=
  ["documentation"; "publication"; "citation"; "license"; "label"; "authors";
   "version"].

(** A README with the same entry twice, a parser that reads the title of
    such an entry, and a citation file without preferred citation. *)
Definition readme_twice : prim :=
  PStr "@article{a, title={T}} and again @article{a, title={T}}".

Definition sample_parse (entry : string)
  : outcome (list (string * list (string * prim))) :=
  Returned [("a", [("TITLE", PStr "{T}")])].

Definition sample_yaml (text : string) : outcome (option CitationData) :=
  Returned (Some citation_with_author).

(** ** Route handlers of the extractor *)

(** The error the [catch] block of a metadata route receives from the
    providers: that of the first awaited call that failed. *)
Definition provider_failure (providers : Providers) : option Failure :=
  match authenticated providers with
  | Some error => Some error
  | None =>
      match repository_object providers with
      | inr error => Some error
      | inl _ =>
          match documentation_files providers with
          | inr error => Some error
          | inl _ => None
          end
      end
  end.

(** ** Metadata Updater *)

(** The place of a request in the pull route. *)
Definition stage (r : Request) : nat :=
  match r with
  | GET_branch _ _ _ => 0
  | GET_branches _ _ => 1
  | POST_git_refs _ _ _ _ => 2
  | GET_contents _ _ _ => 3
  | PUT_contents _ _ _ _ _ _ _ => 4
  | POST_pulls _ _ _ _ _ _ => 5
  end.

(** The error [createFile] throws when its PUT request fails. *)
Definition write_failure (owner repo path : string) (error : Failure) : Failure :=
  Error ("Failed to create or update file at path '" +:+ path
         +:+ "' in repository '" +:+ owner +:+ "/" +:+ repo
         +:+ "': " +:+ failure_message error).

(** A service on which the file exists: every request is answered with
    status 200, a lookup with the blob [abc]. *)
Definition file_exists_service : Service :=
  fun log r =>
    inl {| resp_status := 200;
           resp_data := JObj [("sha", JPrim (PStr "abc"));
                              ("html_url", JPrim (PStr "https://github.com/o/r/pull/1"));
                              ("name", JPrim (PStr "main"));
                              ("commit", JObj [("sha", JPrim (PStr "c0ffee"))])] |}.

(** A service that refuses every request with status 403. *)
Definition forbidden_service : Service :=
  fun log r => inr {| failure_status := PNum 403; failure_message := "Forbidden" |}.

(** A service that answers the GET requests like [file_exists_service] and
    refuses the others with status 403. *)
Definition read_only_service : Service :=
  fun log r =>
    match r with
    | GET_branch _ _ _ | GET_branches _ _ | GET_contents _ _ _ =>
        inl {| resp_status := 200;
               resp_data := match r with
                            | GET_branches _ _ =>
                                JArr [JObj [("name", JPrim (PStr "main"))];
                                      JObj [("name", JPrim (PStr "evaluator-1"))]]
                            | _ =>
                                JObj [("sha", JPrim (PStr "abc"));
                                      ("name", JPrim (PStr "main"));
                                      ("commit", JObj [("sha", JPrim (PStr "c0ffee"))])]
                            end |}
    | _ => inr {| failure_status := PNum 403; failure_message := "Forbidden" |}
    end.

(** A service that answers every request, the list of branches with two
    branches. *)
Definition writable_service : Service :=
  fun log r =>
    match r with
    | GET_branches _ _ => read_only_service log r
    | _ => file_exists_service log r
    end.

(** * Properties *)

(** ** Strings *)

Lemma app_cons (c : ascii) (s t : string) :
  String c s +:+ t = String c (s +:+ t).
Proof. reflexivity. Qed.

Lemma app_nil_l (s : string) : EmptyString +:+ s = s.
Proof. reflexivity. Qed.

Lemma string_app_nil_r (s : string) : s +:+ EmptyString = s.
Proof. induction s as [| c s IH]; [reflexivity |]. now rewrite app_cons, IH. Qed.

Lemma string_app_assoc (s t u : string) : (s +:+ t) +:+ u = s +:+ (t +:+ u).
Proof.
  induction s as [| c s IH]; [reflexivity |]. now rewrite !app_cons, IH.
Qed.

Lemma string_length_app (s t : string) :
  String.length (s +:+ t) = String.length s + String.length t.
Proof.
  induction s as [| c s IH]; [reflexivity |].
  rewrite app_cons. simpl. now rewrite IH.
Qed.

Lemma string_forall_app (p : ascii -> bool) (s t : string) :
  string_forall p (s +:+ t) = string_forall p s && string_forall p t.
Proof.
  induction s as [| c s IH]; [reflexivity |].
  rewrite app_cons. simpl. rewrite IH. now rewrite andb_assoc.
Qed.









(** ** Metadata Normalizer *)

Lemma removeNull_singleton (value : prim) :
  removeNull [JPrim value]
  = match value with PNull => [] | _ => [JPrim value] end.
Proof. destruct value; reflexivity. Qed.

(** C5, as stated, fails: an absent (undefined) description is kept, so the
    description is the one-element sequence holding [undefined], not the
    empty sequence. *)
Lemma githubMetadata_keeps_undefined :
  githubMetadata absent_repository !! "description"
  = Some (JArr [JPrim PUndefined])
  /\ githubMetadata absent_repository !! "description"
     <> Some (JArr (wrap_present_spec (gh_description absent_repository))).
Proof. split; [reflexivity | discriminate]. Qed.

(** C5 (amended): description, links, webpage and repository are
    [removeNull] of a one-element array, which is empty exactly when the
    source value is null and otherwise holds the value (an absent value is
    kept as [undefined]); a null licenseInfo gives an empty license; and the
    example of the specification holds. *)
Theorem githubMetadata_wraps_non_null (ghObject : RepositoryObject) :
  let wrap := fun value : prim =>
                JArr (match value with PNull => [] | _ => [JPrim value] end) in
  githubMetadata ghObject !! "description"
    = Some (JArr (removeNull [JPrim (gh_description ghObject)]))
  /\ githubMetadata ghObject !! "description" = Some (wrap (gh_description ghObject))
  /\ githubMetadata ghObject !! "links" = Some (wrap (gh_mirrorUrl ghObject))
  /\ githubMetadata ghObject !! "webpage" = Some (wrap (gh_homepageUrl ghObject))
  /\ githubMetadata ghObject !! "repository" = Some (wrap (gh_url ghObject))
  /\ (gh_licenseInfo ghObject = None ->
      githubMetadata ghObject !! "license" = Some (JArr []))
  /\ (gh_description ghObject = PNull ->
      gh_homepageUrl ghObject = PStr "http://x" ->
      gh_licenseInfo ghObject = None ->
      githubMetadata ghObject !! "description" = Some (JArr [])
      /\ githubMetadata ghObject !! "webpage" = Some (JArr [JPrim (PStr "http://x")])
      /\ githubMetadata ghObject !! "license" = Some (JArr [])).
Proof.
  intros wrap.
  assert (Hd : githubMetadata ghObject !! "description"
               = Some (JArr (removeNull [JPrim (gh_description ghObject)])))
    by reflexivity.
  assert (Hl : githubMetadata ghObject !! "links"
               = Some (JArr (removeNull [JPrim (gh_mirrorUrl ghObject)])))
    by reflexivity.
  assert (Hw : githubMetadata ghObject !! "webpage"
               = Some (JArr (removeNull [JPrim (gh_homepageUrl ghObject)])))
    by reflexivity.
  assert (Hr : githubMetadata ghObject !! "repository"
               = Some (JArr (removeNull [JPrim (gh_url ghObject)])))
    by reflexivity.
  assert (Hlic : githubMetadata ghObject !! "license"
                 = Some (JArr (buildLicense ghObject)))
    by reflexivity.
  rewrite Hd, Hl, Hw, Hr, Hlic, !removeNull_singleton.
  split; [reflexivity |].
  do 4 (split; [reflexivity |]).
  split.
  - intros Hnone. unfold buildLicense. rewrite Hnone. reflexivity.
  - intros Hdesc Hhome Hnone. unfold buildLicense.
    rewrite Hdesc, Hhome, Hnone. repeat split; reflexivity.
Qed.






(** ** List-ID Preparer *)

Lemma number_items_fold (items : list jsval) (n : nat) (new_field : list jsval) :
  fold_left (fun '(n, new_field) item =>
               ((n + 1)%Z,
                new_field ++ [JObj [("term", item); ("id", JPrim (PNum n))]]))
            items (Z.of_nat n, new_field)
  = (Z.of_nat (n + length items),
     new_field ++ imap (fun i => term_id (n + i)) items).
Proof.
  revert n new_field.
  induction items as [| item items IH]; intros n new_field; simpl.
  - rewrite Nat.add_0_r, app_nil_r. reflexivity.
  - replace (Z.of_nat n + 1)%Z with (Z.of_nat (S n)) by lia.
    rewrite IH. f_equal; [f_equal; lia |].
    rewrite <- app_assoc. simpl. unfold term_id at 2. rewrite Nat.add_0_r.
    do 2 f_equal. apply imap_ext. intros i x _. simpl. f_equal. lia.
Qed.

Lemma number_items_imap (items : list jsval) :
  number_items items = imap term_id items.
Proof.
  unfold number_items.
  pose proof (number_items_fold items 0 []) as Hfold.
  change (Z.of_nat 0) with 0%Z in Hfold. rewrite Hfold. reflexivity.
Qed.

Lemma prepare_field_array (field : string) (m : MetadataRecord) (xs : list jsval) :
  m !! field = Some (JArr xs) ->
  prepare_field field m = (Returned tt, <[field := JArr (imap term_id xs)]> m).
Proof.
  intros Hf. unfold prepare_field, bind, get_field. rewrite Hf. simpl.
  unfold set_field. rewrite number_items_imap. reflexivity.
Qed.

Lemma for_each_prepare (fs : list string) :
  NoDup fs ->
  forall m : MetadataRecord,
    Forall (has_array m) fs ->
    exists m' : MetadataRecord,
      for_each fs prepare_field m = (Returned tt, m')
      /\ (forall f xs, f ∈ fs -> m !! f = Some (JArr xs) ->
          m' !! f = Some (JArr (imap term_id xs)))
      /\ (forall g, g ∉ fs -> m' !! g = m !! g).
Proof.
  induction 1 as [| f fs Hnotin Hnd IH]; intros m Harr.
  - exists m. split; [reflexivity |]. split; [| reflexivity].
    intros f xs Hin. now apply elem_of_nil in Hin.
  - apply Forall_cons in Harr as [[xs Hxs] Harr].
    destruct (IH (<[f := JArr (imap term_id xs)]> m)) as (m' & Hrun & Hin & Hout).
    { rewrite Forall_forall in Harr. apply Forall_forall.
      intros g Hg. destruct (Harr g Hg) as [ys Hys].
      exists ys. rewrite lookup_insert_ne; [exact Hys |].
      intros ->. contradiction. }
    exists m'. split; [| split].
    + simpl. unfold bind. rewrite (prepare_field_array f m xs Hxs). exact Hrun.
    + intros g ys Hg Hys. apply elem_of_cons in Hg as [-> | Hg].
      * rewrite Hout by exact Hnotin. rewrite lookup_insert_eq. congruence.
      * apply Hin; [exact Hg |]. rewrite lookup_insert_ne; [exact Hys |].
        intros ->. contradiction.
    + intros g Hg. apply not_elem_of_cons in Hg as [Hne Hg].
      rewrite Hout by exact Hg. now rewrite lookup_insert_ne.
Qed.


Lemma fields_NoDup : NoDup fields.
Proof. apply (bool_decide_unpack (NoDup fields)). vm_compute. exact I. Qed.



(** ** Document Classifier *)

Lemma blob_url_root (owner repo name : string) :
  blob_url owner repo "" name
  = "https://github.com/" +:+ owner +:+ "/" +:+ repo +:+ "/blob/main/" +:+ name.
Proof. reflexivity. Qed.

(** C4 on the code: README.md is classified "readme" and NOTES.md "root",
    both with a [blob/main] URL, but the file LICENSE is dropped by the
    extension filter before the catalog is consulted, although the catalog
    lists the name LICENSE under "license". *)
Theorem processFiles_drops_LICENSE (owner repo : string) :
  processFiles example_root_listing owner repo docTypes ""
  = [ {| doc_type := "readme";
         doc_url := "https://github.com/" +:+ owner +:+ "/" +:+ repo
                      +:+ "/blob/main/" +:+ "README.md" |};
      {| doc_type := "root";
         doc_url := "https://github.com/" +:+ owner +:+ "/" +:+ repo
                      +:+ "/blob/main/" +:+ "NOTES.md" |} ]
  /\ fetchDocumentationFiles example_provider owner repo
     = processFiles example_root_listing owner repo docTypes ""
  /\ match_docType docTypes "LICENSE" = Some "license"
  /\ (forall entry,
        entry ∈ processFiles example_root_listing owner repo docTypes "" ->
        doc_type entry <> "license").
Proof.
  assert (Hrun : processFiles example_root_listing owner repo docTypes ""
                 = [ {| doc_type := "readme";
                        doc_url := blob_url owner repo "" "README.md" |};
                     {| doc_type := "root";
                        doc_url := blob_url owner repo "" "NOTES.md" |} ])
    by reflexivity.
  split; [rewrite Hrun, !blob_url_root; reflexivity |].
  split; [| split; [reflexivity |]].
  - reflexivity.
  - rewrite Hrun. intros entry Hin.
    apply elem_of_cons in Hin as [-> | Hin]; [discriminate |].
    apply list_elem_of_singleton in Hin as ->. discriminate.
Qed.

(** ** CITATION.cff Mapper *)

Lemma push_field_array (field : string) (v : jsval) (m : MetadataRecord)
    (xs : list jsval) :
  m !! field = Some (JArr xs) ->
  push_field field v m = (Returned tt, <[field := JArr (xs ++ [v])]> m).
Proof. intros Hf. unfold push_field. rewrite Hf. reflexivity. Qed.

Lemma push_field_other (field : string) (v : jsval) (m : MetadataRecord)
    (g : string) :
  g <> field -> snd (push_field field v m) !! g = m !! g.
Proof.
  intros Hne. unfold push_field.
  destruct (m !! field) as [[p | xs | props] |]; simpl; try reflexivity.
  now rewrite lookup_insert_ne.
Qed.

Lemma when_push_field_other (b : bool) (field : string) (v : jsval)
    (m : MetadataRecord) (g : string) :
  g <> field -> snd (when b (push_field field v) m) !! g = m !! g.
Proof.
  intros Hne. destruct b; simpl; [now apply push_field_other | reflexivity].
Qed.

Lemma when_push_field_array (b : bool) (field : string) (v : jsval)
    (m : MetadataRecord) :
  has_array m field ->
  exists m', when b (push_field field v) m = (Returned tt, m')
             /\ forall g, g <> field -> m' !! g = m !! g.
Proof.
  intros [xs Hxs]. destruct b; simpl.
  - rewrite (push_field_array _ _ _ _ Hxs). eexists. split; [reflexivity |].
    intros g Hne. now rewrite lookup_insert_ne.
  - exists m. split; reflexivity.
Qed.

Lemma snd_bind {A B} (c : M A) (k : A -> M B) (m : MetadataRecord) :
  snd (bind c k m)
  = match c m with
    | (Returned a, m') => snd (k a m')
    | (Thrown _, m') => m'
    end.
Proof. unfold bind. destruct (c m) as [[a | e] m']; reflexivity. Qed.


Section Citation.

Variable yaml_load : string -> outcome (option CitationData).


(** C3 on the code: when the citation file has no [authors] key, reading
    [.length] throws inside the [try] block; the call still returns the
    record, with the authors unchanged, but nothing after that statement
    runs: only [license] and [label] can have changed, so the version and the
    preferred citation of the file are not applied. *)
Theorem parseCitationCFF_absent_authors_stops
    (citationContent : string) (m : MetadataRecord) (citationData : CitationData) :
  yaml_load citationContent = Returned (Some citationData) ->
  cff_authors citationData = None ->
  forall g, g <> "license" -> g <> "label" ->
            parseCitationCFF yaml_load citationContent m !! g = m !! g.
Proof.
  intros Hload Hauthors g Hlicense Hlabel.
  unfold parseCitationCFF. rewrite Hload. unfold map_citation.
  rewrite snd_bind.
  pose proof (when_push_field_other (truthy (cff_license citationData)) "license"
                (JObj [("name", JPrim (cff_license citationData));
                       ("url", JPrim (PStr ""))]) m g Hlicense) as H1.
  destruct (when _ _ m) as [[[] | e1] m1]; simpl in H1; [| exact H1].
  rewrite <- H1. rewrite snd_bind.
  pose proof (when_push_field_other (truthy (cff_title citationData)) "label"
                (JPrim (cff_title citationData)) m1 g Hlabel) as H2.
  destruct (when _ _ m1) as [[[] | e2] m2]; simpl in H2; [| exact H2].
  rewrite <- H2. rewrite snd_bind, Hauthors. reflexivity.
Qed.

(** With an empty [authors] list, in contrast, the remaining mappings run:
    the version of the file is appended. *)
Lemma parseCitationCFF_empty_authors_continues
    (citationContent : string) (m : MetadataRecord) (citationData : CitationData)
    (versions : list jsval) :
  yaml_load citationContent = Returned (Some citationData) ->
  cff_authors citationData = Some [] ->
  has_array m "license" ->
  has_array m "label" ->
  m !! "version" = Some (JArr versions) ->
  truthy (cff_version citationData) = true ->
  parseCitationCFF yaml_load citationContent m !! "version"
  = Some (JArr (versions ++ [JPrim (cff_version citationData)]))
  /\ parseCitationCFF yaml_load citationContent m !! "authors" = m !! "authors".
Proof.
  intros Hload Hauthors Hlicense Hlabel Hversion Htruthy.
  unfold parseCitationCFF. rewrite Hload. unfold map_citation.
  rewrite snd_bind.
  destruct (when_push_field_array (truthy (cff_license citationData)) "license"
              (JObj [("name", JPrim (cff_license citationData));
                     ("url", JPrim (PStr ""))]) m Hlicense)
    as (m1 & -> & Hm1).
  assert (Hlabel1 : has_array m1 "label").
  { destruct Hlabel as [xs Hxs]. exists xs. now rewrite Hm1. }
  rewrite snd_bind.
  destruct (when_push_field_array (truthy (cff_title citationData)) "label"
              (JPrim (cff_title citationData)) m1 Hlabel1)
    as (m2 & -> & Hm2).
  rewrite snd_bind, Hauthors.
  change (when (0 <? length (@nil CffAuthor))%nat
            (set_field "authors" (JArr (map citation_author []))) m2)
    with (@Returned unit tt, m2).
  cbv beta iota.
  rewrite snd_bind, Htruthy. simpl when.
  assert (Hv2 : m2 !! "version" = Some (JArr versions)).
  { rewrite Hm2, Hm1 by discriminate. exact Hversion. }
  rewrite (push_field_array _ _ _ _ Hv2). cbv beta iota.
  assert (Hrest : forall g, g <> "publication" ->
            snd (match cff_preferred_citation citationData with
                 | Some pc => push_field "publication" (citation_publication pc)
                 | None => ret tt
                 end (<["version" := JArr (versions ++ [JPrim (cff_version citationData)])]> m2))
            !! g
            = <["version" := JArr (versions ++ [JPrim (cff_version citationData)])]> m2 !! g).
  { intros g Hg. destruct (cff_preferred_citation citationData) as [pc |].
    - now apply push_field_other.
    - reflexivity. }
  split.
  - refine (eq_trans (Hrest "version" _) _); [discriminate |].
    apply lookup_insert_eq.
  - refine (eq_trans (Hrest "authors" _) _); [discriminate |].
    rewrite lookup_insert_ne by discriminate.
    rewrite Hm2, Hm1 by discriminate. reflexivity.
Qed.

End Citation.


(** The statement about C3 at a citation file with a version and a preferred
    citation but no [authors] key: the version list is left as it was. *)
Lemma parseCitationCFF_absent_authors_sample :
  parseCitationCFF (fun _ => Returned (Some citation_without_authors))
    "title: Tool" (githubMetadata sample_repository) !! "version"
  = githubMetadata sample_repository !! "version".
Proof.
  apply (parseCitationCFF_absent_authors_stops
           (fun _ => Returned (Some citation_without_authors))
           "title: Tool" (githubMetadata sample_repository)
           citation_without_authors eq_refl eq_refl);
    discriminate.
Defined.

(** The same call evaluated: the title is appended to the labels, the
    version list and the publication list stay empty. *)
Example parseCitationCFF_absent_authors_run :
  let m' := parseCitationCFF (fun _ => Returned (Some citation_without_authors))
              "title: Tool" (githubMetadata sample_repository) in
  m' !! "label" = Some (JArr [JPrim (PStr "tool"); JPrim (PStr "Tool")])
  /\ m' !! "version" = Some (JArr [])
  /\ m' !! "publication" = Some (JArr []).
Proof. repeat split; reflexivity. Qed.

(** ** Publication Builder *)






Section Publications.

Variable normalize : string -> string.
Variable parse : string -> outcome (list (string * list (string * prim))).


(** C9: for an absent README, given as null or undefined, the extractor
    scans the text "null" or "undefined", finds no entry, and
    [extractJournalPublication] returns the empty sequence. *)
Theorem extractJournalPublication_absent_readme :
  fixes_ascii normalize ->
  extractBibTeXEntries normalize PNull = []
  /\ extractBibTeXEntries normalize PUndefined = []
  /\ extractJournalPublication normalize parse PNull = []
  /\ extractJournalPublication normalize parse PUndefined = []
  /\ (forall content,
        extractJournalPublication normalize parse content
        = extractJournalPublication normalize parse (PStr (ToString content))).
Proof.
  intros Hnorm.
  assert (Hnull : extractBibTeXEntries normalize PNull = []).
  { unfold extractBibTeXEntries.
    change (remove_backticks (ToString PNull)) with "null".
    now rewrite (Hnorm "null" eq_refl). }
  assert (Hundef : extractBibTeXEntries normalize PUndefined = []).
  { unfold extractBibTeXEntries.
    change (remove_backticks (ToString PUndefined)) with "undefined".
    now rewrite (Hnorm "undefined" eq_refl). }
  unfold extractJournalPublication. rewrite Hnull, Hundef.
  repeat split; reflexivity.
Qed.

End Publications.

(** The statement of C9 with the identity for the normalisation and a
    parser that always fails. *)
Lemma extractJournalPublication_absent_readme_sample :
  extractBibTeXEntries (fun s => s) PNull = []
  /\ extractBibTeXEntries (fun s => s) PUndefined = []
  /\ extractJournalPublication (fun s => s) (fun _ => Thrown "SyntaxError") PNull = []
  /\ extractJournalPublication (fun s => s) (fun _ => Thrown "SyntaxError") PUndefined = []
  /\ (forall content,
        extractJournalPublication (fun s => s) (fun _ => Thrown "SyntaxError") content
        = extractJournalPublication (fun s => s) (fun _ => Thrown "SyntaxError")
            (PStr (ToString content))).
Proof.
  apply (extractJournalPublication_absent_readme (fun s => s)
           (fun _ => Thrown "SyntaxError")).
  intros s _. reflexivity.
Defined.

(** ** BibTeX Extractor *)

(** *** The pieces of the pattern *)

Lemma span_spec (p : ascii -> bool) (s a b : string) :
  span p s = (a, b) ->
  s = a +:+ b
  /\ string_forall p a = true
  /\ match b with EmptyString => True | String c _ => p c = false end.
Proof.
  revert a b. induction s as [| c s IH]; intros a b; simpl.
  - intros [= <- <-]. repeat split.
  - destruct (p c) eqn:Hc.
    + destruct (span p s) as [a' b'] eqn:Hs. intros [= <- <-].
      destruct (IH a' b' eq_refl) as (-> & Ha & Hb).
      repeat split; [simpl; now rewrite Hc, Ha | exact Hb].
    + intros [= <- <-]. repeat split. exact Hc.
Qed.

Lemma span_app (p : ascii -> bool) (a b : string) :
  string_forall p a = true ->
  match b with EmptyString => True | String c _ => p c = false end ->
  span p (a +:+ b) = (a, b).
Proof.
  intros Ha Hb. induction a as [| c a IH]; simpl in *.
  - rewrite app_nil_l. destruct b as [| c b]; simpl; [reflexivity |].
    now rewrite Hb.
  - apply andb_true_iff in Ha as [Hc Ha]. rewrite ?app_cons. simpl.
    rewrite Hc, (IH Ha). reflexivity.
Qed.

Lemma ci_take_spec (pat s a b : string) :
  ci_take pat s = Some (a, b) ->
  s = a +:+ b /\ toUpperCase a = toUpperCase pat.
Proof.
  revert s a b. induction pat as [| p pat IH]; intros s a b; simpl.
  - intros [= <- <-]. split; reflexivity.
  - destruct s as [| c s]; [discriminate |].
    destruct (is_char (upper_char p) (upper_char c)) eqn:Hc; [| discriminate].
    destruct (ci_take pat s) as [[a' b'] |] eqn:Hs; [| discriminate].
    intros [= <- <-]. destruct (IH s a' b' Hs) as (-> & Ha).
    apply Ascii.eqb_eq in Hc. split; [reflexivity |]. simpl. now rewrite Ha, Hc.
Qed.

Lemma ci_take_app (pat a b : string) :
  toUpperCase a = toUpperCase pat -> ci_take pat (a +:+ b) = Some (a, b).
Proof.
  revert a. induction pat as [| p pat IH]; intros a Ha; simpl in *.
  - destruct a; [reflexivity | discriminate].
  - destruct a as [| c a]; [discriminate |]. injection Ha as Hc Ha.
    rewrite ?app_cons. unfold is_char. rewrite Hc, Ascii.eqb_refl.
    now rewrite (IH a Ha).
Qed.

Lemma is_char_eq (a b : ascii) : is_char a b = true <-> a = b.
Proof. apply Ascii.eqb_eq. Qed.

Lemma header_tail_sound (s tl rest : string) :
  header_tail s = Some (tl, rest) ->
  exists ws key,
    tl = ws +:+ "{" +:+ key +:+ ","
    /\ s = tl +:+ rest
    /\ string_forall is_space ws = true
    /\ key <> EmptyString
    /\ comma_free key = true.
Proof.
  unfold header_tail.
  destruct (span is_space s) as [ws s1] eqn:Hws.
  apply span_spec in Hws as (-> & Hspaces & _).
  destruct s1 as [| c s2]; [discriminate |].
  destruct (is_char c "{") eqn:Hc; [| discriminate].
  apply is_char_eq in Hc as ->.
  destruct (span (fun c => negb (is_char c ",")) s2) as [key s3] eqn:Hkey.
  apply span_spec in Hkey as (-> & Hfree & _).
  destruct key as [| k key]; [discriminate |].
  destruct s3 as [| c3 s4]; [discriminate |].
  destruct (is_char c3 ",") eqn:Hc3; [| discriminate].
  apply is_char_eq in Hc3 as ->.
  intros [= <- <-]. exists ws, (String k key).
  split; [reflexivity |]. split.
  - rewrite !string_app_assoc. reflexivity.
  - repeat split; [exact Hspaces | discriminate | exact Hfree].
Qed.

Lemma is_space_not (c x : ascii) :
  is_space x = false -> is_space c = true -> is_char c x = false.
Proof.
  intros Hx Hc. destruct (is_char c x) eqn:Heq; [| reflexivity].
  apply is_char_eq in Heq as ->. congruence.
Qed.

Lemma header_tail_complete (ws key rest : string) :
  string_forall is_space ws = true ->
  key <> EmptyString ->
  comma_free key = true ->
  header_tail (ws +:+ "{" +:+ key +:+ "," +:+ rest)
  = Some (ws +:+ "{" +:+ key +:+ ",", rest).
Proof.
  intros Hspaces Hne Hfree. unfold header_tail.
  rewrite (span_app is_space ws ("{" +:+ key +:+ "," +:+ rest) Hspaces eq_refl).
  rewrite app_cons, app_nil_l.
  change (is_char "{" "{") with true. cbv iota.
  rewrite (span_app (fun c => negb (is_char c ",")) key ("," +:+ rest) Hfree eq_refl).
  destruct key as [| k key]; [contradiction |].
  rewrite app_cons, app_nil_l.
  change (is_char "," ",") with true. reflexivity.
Qed.

Lemma keyword_then_tail_sound (keyword s m rest : string) :
  keyword_then_tail keyword s = Some (m, rest) ->
  exists kw ws key,
    m = kw +:+ ws +:+ "{" +:+ key +:+ ","
    /\ s = m +:+ rest
    /\ toUpperCase kw = toUpperCase keyword
    /\ string_forall is_space ws = true
    /\ key <> EmptyString
    /\ comma_free key = true.
Proof.
  unfold keyword_then_tail.
  destruct (ci_take keyword s) as [[kw s1] |] eqn:Hkw; [| discriminate].
  apply ci_take_spec in Hkw as (-> & Hupper).
  destruct (header_tail s1) as [[tl rest'] |] eqn:Htl; [| discriminate].
  apply header_tail_sound in Htl as (ws & key & -> & -> & Hspaces & Hne & Hfree).
  intros [= <- <-]. exists kw, ws, key.
  split; [reflexivity |]. split; [now rewrite !string_app_assoc |].
  repeat split; assumption.
Qed.

Lemma keyword_then_tail_complete (keyword kw ws key rest : string) :
  toUpperCase kw = toUpperCase keyword ->
  string_forall is_space ws = true ->
  key <> EmptyString ->
  comma_free key = true ->
  keyword_then_tail keyword (kw +:+ ws +:+ "{" +:+ key +:+ "," +:+ rest)
  = Some (kw +:+ ws +:+ "{" +:+ key +:+ ",", rest).
Proof.
  intros Hupper Hspaces Hne Hfree. unfold keyword_then_tail.
  rewrite (ci_take_app keyword kw _ Hupper).
  rewrite (header_tail_complete ws key rest Hspaces Hne Hfree).
  reflexivity.
Qed.

Lemma startRegex_sound (s h rest : string) :
  startRegex s = Some (h, rest) ->
  s = h +:+ rest /\ exists key, header_with_key key h.
Proof.
  unfold startRegex. destruct s as [| c s1]; [discriminate |].
  destruct (is_char c "@") eqn:Hc; [| discriminate].
  apply is_char_eq in Hc as ->.
  destruct (keyword_then_tail "article" s1) as [[m rest'] |] eqn:H1.
  - intros [= <- <-].
    apply keyword_then_tail_sound in H1
      as (kw & ws & key & -> & -> & Hupper & Hspaces & Hne & Hfree).
    split; [reflexivity |]. exists key, kw, ws.
    split; [reflexivity |]. split; [left; exact Hupper |].
    repeat split; assumption.
  - destruct (keyword_then_tail "INPROCEEDINGS" s1) as [[m rest'] |] eqn:H2;
      [| discriminate].
    intros [= <- <-].
    apply keyword_then_tail_sound in H2
      as (kw & ws & key & -> & -> & Hupper & Hspaces & Hne & Hfree).
    split; [reflexivity |]. exists key, kw, ws.
    split; [reflexivity |]. split; [right; exact Hupper |].
    repeat split; assumption.
Qed.

Lemma ci_take_first (pat s : string) (p c : ascii) :
  upper_char p <> upper_char c -> ci_take (String p pat) (String c s) = None.
Proof.
  intros Hne. simpl. destruct (is_char (upper_char p) (upper_char c)) eqn:Hc;
    [| reflexivity].
  apply is_char_eq in Hc. contradiction.
Qed.

Lemma startRegex_complete (key h rest : string) :
  header_with_key key h -> startRegex (h +:+ rest) = Some (h, rest).
Proof.
  intros (kw & ws & -> & Hkw & Hspaces & Hne & Hfree).
  rewrite app_cons, app_nil_l, app_cons, !string_app_assoc.
  unfold startRegex. change (is_char "@" "@") with true. cbv iota.
  destruct Hkw as [Hkw | Hkw].
  - rewrite (keyword_then_tail_complete "article" kw ws key rest Hkw Hspaces Hne Hfree).
    reflexivity.
  - assert (H1 : keyword_then_tail "article"
                   (kw +:+ ws +:+ "{" +:+ key +:+ "," +:+ rest) = None).
    { unfold keyword_then_tail. destruct kw as [| k kw]; [discriminate |].
      rewrite app_cons, ci_take_first; [reflexivity |].
      injection Hkw as Hk _. rewrite Hk. discriminate. }
    rewrite H1.
    rewrite (keyword_then_tail_complete "INPROCEEDINGS" kw ws key rest Hkw Hspaces Hne Hfree).
    reflexivity.
Qed.

(** *** The brace counter *)

Lemma close_entry_sound (rest : string) :
  forall (braceCount : Z) (entry e : string),
    (1 <= braceCount)%Z ->
    close_entry rest braceCount entry = Some e ->
    exists body post,
      rest = body +:+ "}" +:+ post
      /\ e = entry +:+ body +:+ "}"
      /\ balanced_from body (braceCount - 1) = true.
Proof.
  induction rest as [| c rest IH]; intros d entry e Hd; simpl; [discriminate |].
  destruct (is_char c "{") eqn:Hopen; [| destruct (is_char c "}") eqn:Hclose].
  - destruct (d + 1 =? 0)%Z eqn:Hz; [lia |].
    intros Hrun. destruct (IH (d + 1)%Z _ e ltac:(lia) Hrun) as (body & post & -> & -> & Hb).
    exists (String c body), post. split; [reflexivity |].
    split; [now rewrite string_app_assoc |].
    simpl. rewrite Hopen. replace (d - 1 + 1)%Z with d by lia.
    replace (d + 1 - 1)%Z with d in Hb by lia. rewrite Hb.
    apply andb_true_iff. split; [apply Z.leb_le; lia | reflexivity].
  - destruct (d - 1 =? 0)%Z eqn:Hz.
    + intros [= <-]. apply is_char_eq in Hclose as ->.
      exists EmptyString, rest. split; [reflexivity |]. split; [reflexivity |].
      simpl. exact Hz.
    + apply Z.eqb_neq in Hz. intros Hrun.
      destruct (IH (d - 1)%Z _ e ltac:(lia) Hrun) as (body & post & -> & -> & Hb).
      exists (String c body), post. split; [reflexivity |].
      split; [now rewrite string_app_assoc |].
      simpl. rewrite Hopen, Hclose, Hb.
      apply andb_true_iff. split; [apply Z.leb_le; lia | reflexivity].
  - destruct (d =? 0)%Z eqn:Hz; [lia |].
    intros Hrun. destruct (IH d _ e Hd Hrun) as (body & post & -> & -> & Hb).
    exists (String c body), post. split; [reflexivity |].
    split; [now rewrite string_app_assoc |].
    simpl. rewrite Hopen, Hclose, Hb.
    apply andb_true_iff. split; [apply Z.leb_le; lia | reflexivity].
Qed.

Lemma close_entry_complete (body : string) :
  forall (post : string) (braceCount : Z) (entry : string),
    (1 <= braceCount)%Z ->
    balanced_from body (braceCount - 1) = true ->
    close_entry (body +:+ "}" +:+ post) braceCount entry
    = Some (entry +:+ body +:+ "}").
Proof.
  induction body as [| c body IH]; intros post d entry Hd Hb.
  - simpl in Hb. apply Z.eqb_eq in Hb.
    rewrite app_nil_l, app_cons, app_nil_l. simpl.
    replace (d - 1 =? 0)%Z with true by (symmetry; apply Z.eqb_eq; lia).
    reflexivity.
  - rewrite app_cons. simpl in *.
    apply andb_true_iff in Hb as [Hge Hb]. apply Z.leb_le in Hge.
    destruct (is_char c "{") eqn:Hopen; [| destruct (is_char c "}") eqn:Hclose].
    + destruct (d + 1 =? 0)%Z eqn:Hz; [lia |].
      rewrite IH; [now rewrite string_app_assoc | lia |].
      replace (d + 1 - 1)%Z with (d - 1 + 1)%Z by lia. exact Hb.
    + destruct (d - 1 =? 0)%Z eqn:Hz; [lia |].
      rewrite IH; [now rewrite string_app_assoc | lia | exact Hb].
    + destruct (d =? 0)%Z eqn:Hz; [lia |].
      rewrite IH; [now rewrite string_app_assoc | lia | exact Hb].
Qed.

Lemma balanced_from_skip (x : string) :
  forall (rest : string) (d : Z),
    brace_free x = true -> (0 <= d)%Z ->
    balanced_from (x +:+ rest) d = balanced_from rest d.
Proof.
  induction x as [| c x IH]; intros rest d Hfree Hd; [reflexivity |].
  unfold brace_free, char_free in Hfree. simpl in Hfree.
  apply andb_true_iff in Hfree as [H1 H2].
  apply andb_true_iff in H1 as [Hc1 H1]. apply andb_true_iff in H2 as [Hc2 H2].
  apply negb_true_iff in Hc1. apply negb_true_iff in Hc2.
  rewrite app_cons. simpl. rewrite Hc1, Hc2.
  rewrite IH; [| unfold brace_free, char_free; now rewrite H1, H2 | exact Hd].
  replace (0 <=? d)%Z with true by (symmetry; apply Z.leb_le; lia).
  reflexivity.
Qed.

Lemma balanced_from_app (body : string) :
  forall (rest : string) (k d : Z),
    balanced_from body k = true -> (0 <= d)%Z ->
    balanced_from (body +:+ rest) (k + d) = balanced_from rest d.
Proof.
  induction body as [| c body IH]; intros rest k d Hb Hd; simpl in Hb.
  - apply Z.eqb_eq in Hb. subst k. reflexivity.
  - apply andb_true_iff in Hb as [Hge Hb]. apply Z.leb_le in Hge.
    rewrite app_cons. simpl.
    destruct (is_char c "{"); [| destruct (is_char c "}")].
    + replace (k + d + 1)%Z with (k + 1 + d)%Z by lia.
      rewrite IH by assumption.
      replace (0 <=? k + 1 + d)%Z with true by (symmetry; apply Z.leb_le; lia).
      reflexivity.
    + replace (k + d - 1)%Z with (k - 1 + d)%Z by lia.
      rewrite IH by assumption.
      replace (0 <=? k - 1 + d)%Z with true by (symmetry; apply Z.leb_le; lia).
      reflexivity.
    + rewrite IH by assumption.
      replace (0 <=? k + d)%Z with true by (symmetry; apply Z.leb_le; lia).
      reflexivity.
Qed.

(** *** Characters of a header *)

Lemma char_free_app (x : ascii) (s t : string) :
  char_free x (s +:+ t) = char_free x s && char_free x t.
Proof. apply string_forall_app. Qed.

Lemma upper_char_fixed_inv (x c : ascii) :
  upper_char x = x -> is_char (upper_char c) x = false -> is_char c x = false.
Proof.
  intros Hx Hc. destruct (is_char c x) eqn:Heq; [| reflexivity].
  apply is_char_eq in Heq as ->. rewrite Hx in Hc.
  unfold is_char in Hc. now rewrite Ascii.eqb_refl in Hc.
Qed.

Lemma toUpperCase_char_free (x : ascii) (s : string) :
  upper_char x = x -> char_free x (toUpperCase s) = true -> char_free x s = true.
Proof.
  intros Hx. unfold char_free.
  induction s as [| c s IH]; simpl; [reflexivity |].
  intros H. apply andb_true_iff in H as [Hc Hs].
  apply negb_true_iff in Hc.
  rewrite (upper_char_fixed_inv x c Hx Hc), (IH Hs). reflexivity.
Qed.

Lemma keyword_char_free (x : ascii) (kw : string) :
  upper_char x = x ->
  char_free x "ARTICLE" = true -> char_free x "INPROCEEDINGS" = true ->
  toUpperCase kw = "ARTICLE" \/ toUpperCase kw = "INPROCEEDINGS" ->
  char_free x kw = true.
Proof.
  intros Hx H1 H2 [Hkw | Hkw]; apply toUpperCase_char_free; try exact Hx;
    now rewrite Hkw.
Qed.

Lemma spaces_char_free (x : ascii) (ws : string) :
  is_space x = false -> string_forall is_space ws = true -> char_free x ws = true.
Proof.
  intros Hx. unfold char_free.
  induction ws as [| c ws IH]; simpl; [reflexivity |].
  intros H. apply andb_true_iff in H as [Hc Hs].
  rewrite (is_space_not c x Hx Hc), (IH Hs). reflexivity.
Qed.

(** A text that reaches a comma before any opening brace cannot begin like
    one that reaches an opening brace before any comma. *)
Lemma comma_before_brace (w : string) :
  forall x rest rest' : string,
    comma_free w = true -> char_free "{" w = true ->
    comma_free x = true -> char_free "{" x = true ->
    w +:+ "," +:+ rest <> x +:+ "{" +:+ rest'.
Proof.
  unfold comma_free, char_free.
  induction w as [| c w IH]; intros x rest rest' Hw1 Hw2 Hx1 Hx2 Heq.
  - destruct x as [| c' x]; [discriminate |].
    rewrite !app_cons, app_nil_l in Heq. injection Heq as <- _.
    simpl in Hx1. discriminate.
  - destruct x as [| c' x].
    + rewrite !app_cons, app_nil_l in Heq. injection Heq as -> _.
      simpl in Hw2. discriminate.
    + rewrite !app_cons in Heq. injection Heq as <- Heq.
      simpl in *. apply andb_true_iff in Hw1 as [_ Hw1].
      apply andb_true_iff in Hw2 as [_ Hw2].
      apply andb_true_iff in Hx1 as [_ Hx1].
      apply andb_true_iff in Hx2 as [_ Hx2].
      exact (IH x rest rest' Hw1 Hw2 Hx1 Hx2 Heq).
Qed.

(** No header starts inside a key that has neither comma nor brace. *)
Lemma startRegex_inside_key (w rest : string) :
  comma_free w = true -> brace_free w = true ->
  startRegex (w +:+ "," +:+ rest) = None.
Proof.
  intros Hcomma Hbrace.
  destruct (startRegex (w +:+ "," +:+ rest)) as [[h r] |] eqn:Hm; [| reflexivity].
  exfalso. apply startRegex_sound in Hm as (Heq & key & kw & ws & -> & Hkw & Hws & _ & _).
  apply andb_true_iff in Hbrace as [Hopen _].
  rewrite !string_app_assoc in Heq.
  replace ("@" +:+ kw +:+ ws +:+ "{" +:+ key +:+ "," +:+ r)
    with (("@" +:+ kw +:+ ws) +:+ "{" +:+ key +:+ "," +:+ r) in Heq
    by now rewrite !string_app_assoc.
  apply (comma_before_brace w ("@" +:+ kw +:+ ws) rest (key +:+ "," +:+ r));
    try assumption.
  - unfold comma_free. rewrite !char_free_app.
    rewrite (keyword_char_free "," kw eq_refl eq_refl eq_refl Hkw).
    rewrite (spaces_char_free "," ws eq_refl Hws). reflexivity.
  - rewrite !char_free_app.
    rewrite (keyword_char_free "{" kw eq_refl eq_refl eq_refl Hkw).
    rewrite (spaces_char_free "{" ws eq_refl Hws). reflexivity.
Qed.

Lemma startRegex_not_at (c : ascii) (s : string) :
  is_char c "@" = false -> startRegex (String c s) = None.
Proof. intros Hc. simpl. now rewrite Hc. Qed.

(** *** The search loop *)

Lemma quiet_skip (x : string) (n : nat) (z : string) :
  char_free "@" x = true -> quiet n z = true ->
  quiet (String.length x + n) (x +:+ z) = true.
Proof.
  unfold char_free. intros Hx Hz.
  induction x as [| c x IH]; [exact Hz |].
  simpl in Hx. apply andb_true_iff in Hx as [Hc Hx]. apply negb_true_iff in Hc.
  rewrite app_cons. cbn [String.length Nat.add quiet].
  rewrite (startRegex_not_at c _ Hc). exact (IH Hx).
Qed.

Lemma quiet_key (w rest : string) :
  comma_free w = true -> brace_free w = true ->
  quiet (String.length w + 1) (w +:+ "," +:+ rest) = true.
Proof.
  intros Hcomma Hbrace. induction w as [| c w IH].
  - reflexivity.
  - rewrite app_cons. cbn [String.length Nat.add quiet].
    rewrite <- app_cons, (startRegex_inside_key _ rest Hcomma Hbrace).
    apply IH.
    + unfold comma_free, char_free in *. simpl in Hcomma.
      now apply andb_true_iff in Hcomma as [_ Hcomma].
    + unfold brace_free, char_free in *. simpl in Hbrace.
      apply andb_true_iff in Hbrace as [H1 H2].
      apply andb_true_iff in H1 as [_ H1]. apply andb_true_iff in H2 as [_ H2].
      now rewrite H1, H2.
Qed.

(** After the [@] of a header whose key has no brace, no match starts before
    the header ends. *)
Lemma quiet_header (key kw ws rest : string) :
  toUpperCase kw = "ARTICLE" \/ toUpperCase kw = "INPROCEEDINGS" ->
  string_forall is_space ws = true ->
  comma_free key = true -> brace_free key = true ->
  let m := kw +:+ ws +:+ "{" +:+ key +:+ "," in
  quiet (String.length m) (m +:+ rest) = true.
Proof.
  intros Hkw Hws Hcomma Hbrace m. subst m.
  rewrite !string_app_assoc, !string_length_app.
  apply quiet_skip; [exact (keyword_char_free "@" kw eq_refl eq_refl eq_refl Hkw) |].
  apply quiet_skip; [exact (spaces_char_free "@" ws eq_refl Hws) |].
  apply (quiet_skip "{"); [reflexivity |].
  now apply quiet_key.
Qed.

Lemma exec_loop_entries_acc (content : string) :
  forall (covered : nat) (entries : list string),
    exec_loop content covered entries = entries ++ exec_loop content covered [].
Proof.
  induction content as [| c content IH]; intros covered entries;
    cbn [exec_loop].
  - now rewrite app_nil_r.
  - destruct covered as [| covered]; [| apply IH].
    destruct (startRegex (String c content)) as [[match0 rest] |]; [| apply IH].
    destruct (close_entry rest 1 match0) as [entry |].
    + rewrite IH, (IH _ ([] ++ [entry])). now rewrite app_assoc.
    + apply IH.
Qed.

Lemma no_nested_match_tail (c : ascii) (s : string) :
  no_nested_match (String c s) -> no_nested_match s.
Proof.
  intros H a c' b match0 rest Heq Hm.
  apply (H (String c a) c' b match0 rest); [| exact Hm].
  rewrite app_cons. now rewrite Heq.
Qed.

Lemma exec_loop_entries_from (content : string) :
  forall covered : nat,
    no_nested_match content ->
    quiet covered content = true ->
    exec_loop content covered [] = entries_from content.
Proof.
  induction content as [| c content IH]; intros covered Hnested Hquiet;
    [reflexivity |].
  pose proof (no_nested_match_tail c content Hnested) as Htail.
  cbn [exec_loop entries_from]. unfold entry_here.
  destruct covered as [| covered].
  - destruct (startRegex (String c content)) as [[match0 rest] |] eqn:Hm.
    + pose proof (Hnested EmptyString c content match0 rest eq_refl Hm) as Hq.
      rewrite exec_loop_entries_acc, (IH _ Htail Hq).
      destruct (close_entry rest 1 match0); reflexivity.
    + apply IH; [exact Htail | reflexivity].
  - cbn [quiet] in Hquiet.
    destruct (startRegex (String c content)); [discriminate |].
    apply IH; assumption.
Qed.

Lemma keys_brace_free_no_nested (t : string) :
  keys_brace_free t -> no_nested_match t.
Proof.
  intros Hkeys a c b match0 rest Heq Hm.
  pose proof Hm as Hs.
  apply startRegex_sound in Hs as (Hsplit & key & Hheader).
  assert (Hbrace : brace_free key = true).
  { apply (Hkeys a key match0 rest); [| exact Hheader]. now rewrite Heq, Hsplit. }
  destruct Hheader as (kw & ws & -> & Hkw & Hws & _ & Hcomma).
  rewrite app_cons, app_nil_l, app_cons in Hsplit. injection Hsplit as _ ->.
  rewrite app_cons, app_nil_l.
  assert (Hlen : forall x, String.length (String "@" x) - 1 = String.length x)
    by (intros x; cbn [String.length]; lia).
  rewrite Hlen.
  exact (quiet_header key kw ws rest Hkw Hws Hcomma Hbrace).
Qed.

(** *** Well-formed entries *)

Lemma entry_here_sound (s e : string) :
  entry_here s = [e] -> entry_prefix s e.
Proof.
  unfold entry_here.
  destruct (startRegex s) as [[h rest] |] eqn:Hm; [| discriminate].
  destruct (close_entry rest 1 h) as [entry |] eqn:Hclose; [| discriminate].
  intros [= ->].
  apply startRegex_sound in Hm as (-> & key & Hheader).
  apply close_entry_sound in Hclose as (body & post & -> & -> & Hb); [| lia].
  exists key, h, body, post. split; [now rewrite !string_app_assoc |].
  split; [reflexivity |]. split; [exact Hheader | exact Hb].
Qed.

Lemma entry_here_complete (s e : string) :
  entry_prefix s e -> entry_here s = [e].
Proof.
  intros (key & h & body & post & -> & -> & Hheader & Hb).
  unfold entry_here. rewrite !string_app_assoc.
  rewrite (startRegex_complete key h _ Hheader).
  rewrite (close_entry_complete body post 1 h ltac:(lia) Hb).
  reflexivity.
Qed.

Lemma entry_here_cases (s : string) :
  entry_here s = [] \/ exists e, entry_here s = [e].
Proof.
  unfold entry_here. destruct (startRegex s) as [[h rest] |]; [| now left].
  destruct (close_entry rest 1 h) as [e |]; [right; now exists e | now left].
Qed.

Lemma app_same_length (a b a' b' : string) :
  a +:+ b = a' +:+ b' -> String.length a = String.length a' -> a = a' /\ b = b'.
Proof.
  revert a'. induction a as [| c a IH]; intros [| c' a'] Heq Hlen;
    try discriminate.
  - split; [reflexivity | exact Heq].
  - rewrite !app_cons in Heq. injection Heq as -> Heq. injection Hlen as Hlen.
    destruct (IH a' Heq Hlen) as [-> ->]. split; reflexivity.
Qed.

Lemma header_nonempty (key h : string) :
  header_with_key key h -> 0 < String.length h.
Proof. intros (kw & ws & -> & _). rewrite app_cons. simpl. lia. Qed.

Lemma entry_at_bound (t : string) (p : nat) (e : string) :
  entry_at t p e -> p < String.length t.
Proof.
  intros (pre & s & -> & <- & key & h & body & post & -> & -> & Hheader & _).
  pose proof (header_nonempty key h Hheader).
  rewrite !string_length_app. lia.
Qed.

Lemma entry_at_unique (t : string) (p : nat) (e e' : string) :
  entry_at t p e -> entry_at t p e' -> e = e'.
Proof.
  intros (pre & s & -> & <- & He) (pre' & s' & Heq & Hlen & He').
  destruct (app_same_length _ _ _ _ Heq (eq_sym Hlen)) as [-> ->].
  apply entry_here_complete in He, He'. congruence.
Qed.

(** The entries found from [s] on are the well-formed entries of the text at
    the indices of [s], in increasing order of index. *)
Lemma entries_from_spec (s : string) :
  forall pre : string,
    exists ps : list nat,
      StronglySorted lt ps
      /\ (forall p, p ∈ ps <->
                    String.length pre <= p /\ exists e, entry_at (pre +:+ s) p e)
      /\ Forall2 (entry_at (pre +:+ s)) ps (entries_from s).
Proof.
  induction s as [| c s IH]; intros pre.
  - exists []. split; [constructor |]. split; [| constructor].
    intros p. split; [intros Hin; now apply elem_of_nil in Hin |].
    intros [Hle [e He]]. apply entry_at_bound in He.
    rewrite string_app_nil_r in He. lia.
  - destruct (IH (pre +:+ String c EmptyString)) as (ps & Hsorted & Hmem & Hall).
    assert (Htext : (pre +:+ String c EmptyString) +:+ s = pre +:+ String c s)
      by now rewrite string_app_assoc.
    rewrite Htext in Hmem, Hall.
    rewrite string_length_app in Hmem. cbn [String.length] in Hmem.
    assert (Hhere : forall e, entry_at (pre +:+ String c s) (String.length pre) e
                              <-> entry_here (String c s) = [e]).
    { intros e. split.
      - intros (pre' & s' & Heq & Hlen & He).
        destruct (app_same_length _ _ _ _ Heq (eq_sym Hlen)) as [-> <-].
        now apply entry_here_complete.
      - intros He. exists pre, (String c s).
        split; [reflexivity |]. split; [reflexivity |].
        now apply entry_here_sound. }
    cbn [entries_from].
    destruct (entry_here_cases (String c s)) as [Hnone | [e Hsome]].
    + rewrite Hnone. exists ps. split; [exact Hsorted |]. split; [| exact Hall].
      intros p. rewrite Hmem. split.
      * intros [Hle He]. split; [lia | exact He].
      * intros [Hle [e He]]. split; [| now exists e].
        destruct (Nat.eq_dec p (String.length pre)) as [-> | Hne]; [| lia].
        apply Hhere in He. congruence.
    + rewrite Hsome. exists (String.length pre :: ps).
      split; [| split].
      * constructor; [exact Hsorted |].
        apply Forall_forall. intros p Hp. apply Hmem in Hp as [Hle _]. lia.
      * intros p. rewrite elem_of_cons, Hmem. split.
        -- intros [-> | [Hle He]].
           ++ split; [lia |]. exists e. now apply Hhere.
           ++ split; [lia | exact He].
        -- intros [Hle He].
           destruct (Nat.eq_dec p (String.length pre)) as [-> | Hne];
             [now left | right]. split; [lia | exact He].
      * constructor; [now apply Hhere | exact Hall].
Qed.

(** A well-formed entry whose key has no brace is brace-balanced. *)
Lemma entry_balanced (key h body : string) :
  header_with_key key h -> brace_free key = true -> balanced body = true ->
  balanced (h +:+ body +:+ "}") = true.
Proof.
  intros (kw & ws & -> & Hkw & Hws & _ & Hcomma) Hbrace Hbody.
  unfold balanced. rewrite !string_app_assoc.
  rewrite (balanced_from_skip "@") by (reflexivity || lia).
  rewrite balanced_from_skip; [| | lia].
  2:{ unfold brace_free.
      now rewrite (keyword_char_free "{" kw eq_refl eq_refl eq_refl Hkw),
                  (keyword_char_free "}" kw eq_refl eq_refl eq_refl Hkw). }
  rewrite balanced_from_skip; [| | lia].
  2:{ unfold brace_free.
      now rewrite (spaces_char_free "{" ws eq_refl Hws),
                  (spaces_char_free "}" ws eq_refl Hws). }
  rewrite app_cons, app_nil_l. cbn [balanced_from].
  change (is_char "{" "{") with true. cbv iota.
  change (0 + 1)%Z with 1%Z. change (0 <=? 1)%Z with true. cbn [andb].
  rewrite (balanced_from_skip key) by (assumption || lia).
  rewrite (balanced_from_skip ",") by (reflexivity || lia).
  pose proof (balanced_from_app body "}" 0 1 Hbody ltac:(lia)) as Hclose.
  change (0 + 1)%Z with 1%Z in Hclose. rewrite Hclose. reflexivity.
Qed.

Lemma simple_header_key (key h : string) :
  header_with_key key h -> simple_header h = true -> brace_free key = true.
Proof.
  intros (kw & ws & -> & Hkw & Hws & _ & _). unfold simple_header.
  replace ("@" +:+ kw +:+ ws +:+ "{" +:+ key +:+ ",")
    with (("@" +:+ kw +:+ ws) +:+ "{" +:+ key +:+ ",")
    by now rewrite !string_app_assoc.
  rewrite span_app; [| | reflexivity].
  - cbn [snd]. change ("{" +:+ key +:+ ",") with (String "{" (key +:+ ",")).
    cbv iota. unfold brace_free. rewrite !char_free_app. intros H.
    apply andb_true_iff in H as [H1 H2].
    apply andb_true_iff in H1 as [H1 _]. apply andb_true_iff in H2 as [H2 _].
    now rewrite H1, H2.
  - change (char_free "{" ("@" +:+ kw +:+ ws) = true). rewrite !char_free_app.
    rewrite (keyword_char_free "{" kw eq_refl eq_refl eq_refl Hkw).
    rewrite (spaces_char_free "{" ws eq_refl Hws). reflexivity.
Qed.

Lemma headers_simple_sound (t : string) :
  headers_simple t = true -> keys_brace_free t.
Proof.
  intros Hcheck pre. revert t Hcheck.
  induction pre as [| c pre IH]; intros t Hcheck key h post Heq Hheader.
  - rewrite app_nil_l in Heq. subst t.
    pose proof (startRegex_complete key h post Hheader) as Hm.
    pose proof (header_nonempty key h Hheader) as Hlen.
    destruct h as [| c h]; [simpl in Hlen; lia |].
    rewrite app_cons in Hcheck, Hm. cbn [headers_simple] in Hcheck.
    rewrite Hm in Hcheck. apply andb_true_iff in Hcheck as [Hsimple _].
    exact (simple_header_key key _ Hheader Hsimple).
  - subst t. rewrite app_cons in Hcheck. cbn [headers_simple] in Hcheck.
    apply andb_true_iff in Hcheck as [_ Hcheck].
    exact (IH _ Hcheck key h post eq_refl Hheader).
Qed.

(** C1, as stated, fails: the key of the pattern may hold braces, which the
    counter does not see, so an entry of the result need not be
    brace-balanced.  (And an entry is cut from the text without its
    backticks, not from the input: the second example.) *)
Lemma extractBibTeXEntries_unbalanced_entry :
  (extractBibTeXEntries (fun s => s) (PStr "@article{k}x, y}")
   = ["@article{k}x, y}"]
   /\ balanced "@article{k}x, y}" = false)
  /\ extractBibTeXEntries (fun s => s) (PStr "@article{k, note=`x`}")
     = ["@article{k, note=x}"].
Proof. repeat split; reflexivity. Qed.

Section Extractor.

Variable normalize : string -> string.

(** C1 (amended): let [t] be the text scanned (the content as a string,
    without backticks, normalised), and suppose no header of [t] has a brace
    in its key.  Then the result lists exactly the well-formed entries of
    [t], one per index where one starts, in document order; each is the
    substring from its [@] to the brace closing the header's brace; a header
    whose braces never balance contributes nothing; and every string of the
    result is brace-balanced. *)
Theorem extractBibTeXEntries_well_formed_entries (content : prim) :
  let t := normalize (remove_backticks (ToString content)) in
  keys_brace_free t ->
  exists ps : list nat,
    StronglySorted lt ps
    /\ (forall p, p ∈ ps <-> exists e, entry_at t p e)
    /\ Forall2 (entry_at t) ps (extractBibTeXEntries normalize content)
    /\ length (extractBibTeXEntries normalize content) = length ps
    /\ (forall p e e', entry_at t p e -> entry_at t p e' -> e = e')
    /\ (forall pre key h rest,
          t = pre +:+ h +:+ rest -> header_with_key key h ->
          (forall body post, rest = body +:+ "}" +:+ post -> balanced body = false) ->
          String.length pre ∉ ps)
    /\ Forall (fun e => balanced e = true) (extractBibTeXEntries normalize content).
Proof.
  intros t Hkeys.
  assert (Hrun : extractBibTeXEntries normalize content = entries_from t).
  { unfold extractBibTeXEntries. fold t.
    apply exec_loop_entries_from; [| reflexivity].
    now apply keys_brace_free_no_nested. }
  rewrite Hrun.
  destruct (entries_from_spec t EmptyString) as (ps & Hsorted & Hmem & Hall).
  rewrite app_nil_l in Hmem, Hall.
  exists ps. split; [exact Hsorted |]. split; [| split; [exact Hall |]].
  { intros p. rewrite Hmem. split; [now intros [_ He] |].
    intros He. split; [simpl; lia | exact He]. }
  split; [symmetry; exact (Forall2_length _ _ _ Hall) |].
  split; [exact (entry_at_unique t) |].
  split.
  - intros pre key h rest Ht Hheader Hopen Hin.
    apply Hmem in Hin as [_ [e (pre' & s & Heq & Hlen & He)]].
    rewrite Ht in Heq.
    destruct (app_same_length _ _ _ _ Heq (eq_sym Hlen)) as [_ <-].
    destruct He as (key' & h' & body & post & Hs & -> & Hheader' & Hb).
    rewrite !string_app_assoc in Hs.
    pose proof (startRegex_complete key h rest Hheader) as H1.
    pose proof (startRegex_complete key' h' (body +:+ "}" +:+ post) Hheader') as H2.
    rewrite Hs, H2 in H1. injection H1 as -> Hrest.
    rewrite (Hopen body post (eq_sym Hrest)) in Hb. discriminate.
  - clear Hmem Hsorted Hrun.
    induction Hall as [| p e ps es He _ IH]; constructor; [| exact IH].
    destruct He as (pre & s & Ht & _ & key & h & body & post & -> & -> & Hheader & Hb).
    apply (entry_balanced key h body Hheader); [| exact Hb].
    apply (Hkeys pre key h (body +:+ "}" +:+ post)); [| exact Hheader].
    rewrite Ht. now rewrite !string_app_assoc.
Qed.

End Extractor.

(** The statement of C1 (amended) at [sample_readme]. *)
Lemma extractBibTeXEntries_sample_entries :
  let t := remove_backticks (ToString sample_readme) in
  exists ps : list nat,
    StronglySorted lt ps
    /\ (forall p, p ∈ ps <-> exists e, entry_at t p e)
    /\ Forall2 (entry_at t) ps (extractBibTeXEntries (fun s => s) sample_readme)
    /\ length (extractBibTeXEntries (fun s => s) sample_readme) = length ps
    /\ (forall p e e', entry_at t p e -> entry_at t p e' -> e = e')
    /\ (forall pre key h rest,
          t = pre +:+ h +:+ rest -> header_with_key key h ->
          (forall body post, rest = body +:+ "}" +:+ post -> balanced body = false) ->
          String.length pre ∉ ps)
    /\ Forall (fun e => balanced e = true)
              (extractBibTeXEntries (fun s => s) sample_readme).
Proof.
  apply (extractBibTeXEntries_well_formed_entries (fun s => s) sample_readme).
  apply headers_simple_sound. vm_compute. reflexivity.
Defined.

Example extractBibTeXEntries_sample_run :
  extractBibTeXEntries (fun s => s) sample_readme
  = [ "@article{doe2020, title={A {B} c}, year=2020}";
      "@InProceedings {roe21, note={x}}" ].
Proof. reflexivity. Qed.

(** ** Branch names *)

(** *** Decimal digits *)








(** *** The next branch name *)












(** The example of the documentation. *)
Example generateBranchName_documented_example :
  generateBranchName (branch_names ["master"; "evaluator"; "evaluator-1"])
  = Returned "evaluator-2".
Proof. vm_compute. reflexivity. Qed.

(** * Further properties of the code *)

(** ** Publication Deduplicator *)

Lemma publication_identifier_defined (publication : jsval) :
  has_properties publication = true ->
  publication_identifier publication = Returned (identifier_of publication).
Proof.
  intros Hp. unfold identifier_of, publication_identifier.
  destruct publication as [[| | b | n | s] | xs | props];
    try discriminate; reflexivity.
Qed.

Lemma publication_identifier_throws (publication : jsval) :
  has_properties publication = false ->
  exists msg, publication_identifier publication = Thrown msg.
Proof.
  destruct publication as [[| | b | n | s] | xs | props];
    try discriminate; intros _; eexists; reflexivity.
Qed.

(** What the loop does from a state whose Set holds the identifiers of the
    list built so far. *)
Lemma unique_loop_spec (publications : list jsval) :
  forall (seen : gset string) (unique : list jsval),
    Forall (fun p => has_properties p = true) publications ->
    (forall s, s ∈ seen <-> s ∈ map identifier_of unique) ->
    NoDup (map identifier_of unique) ->
    exists added,
      unique_loop publications seen unique = Returned (unique ++ added)
      /\ sublist added publications
      /\ NoDup (map identifier_of (unique ++ added))
      /\ (forall p, p ∈ publications ->
                    identifier_of p ∈ map identifier_of (unique ++ added))
      /\ (forall a, a ∈ added ->
            (identifier_of a ∉ seen)
            /\ exists before after,
                 publications = before ++ a :: after
                 /\ identifier_of a ∉ map identifier_of before).
Proof.
  induction publications as [| p rest IH]; intros seen unique Hprops Hseen Hnd.
  - exists []. rewrite app_nil_r. split; [reflexivity |].
    split; [constructor |]. split; [exact Hnd |]. split.
    + intros p Hp. now apply elem_of_nil in Hp.
    + intros a Ha. now apply elem_of_nil in Ha.
  - apply Forall_cons in Hprops as [Hp Hrest]. cbn [unique_loop].
    rewrite (publication_identifier_defined p Hp).
    destruct (bool_decide (identifier_of p ∈ seen)) eqn:Hin.
    + apply bool_decide_eq_true in Hin.
      destruct (IH seen unique Hrest Hseen Hnd)
        as (added & Hrun & Hsub & Hnd' & Hcov & Hfirst).
      exists added. split; [exact Hrun |].
      split; [now apply sublist_cons |]. split; [exact Hnd' |]. split.
      * intros q Hq. apply elem_of_cons in Hq as [-> | Hq]; [| now apply Hcov].
        rewrite map_app. apply elem_of_app. left. now apply Hseen.
      * intros a Ha. destruct (Hfirst a Ha) as (Hns & before & after & -> & Hnb).
        split; [exact Hns |]. exists (p :: before), after.
        split; [reflexivity |]. simpl. intros Hbad.
        apply elem_of_cons in Hbad as [Heq | Hbad]; [| contradiction].
        apply Hns. now rewrite Heq.
    + apply bool_decide_eq_false in Hin.
      destruct (IH ({[identifier_of p]} ∪ seen) (unique ++ [p]) Hrest)
        as (added & Hrun & Hsub & Hnd' & Hcov & Hfirst).
      { intros s. rewrite map_app, elem_of_app, elem_of_union, elem_of_singleton.
        simpl. rewrite list_elem_of_singleton, Hseen. tauto. }
      { rewrite map_app. apply NoDup_app. split; [exact Hnd |]. split.
        - intros s Hs Hs'. simpl in Hs'. apply list_elem_of_singleton in Hs' as ->.
          apply Hin. now apply Hseen.
        - simpl. apply NoDup_singleton. }
      rewrite <- app_assoc in Hrun, Hnd', Hcov. simpl in Hrun, Hnd', Hcov.
      exists (p :: added). split; [exact Hrun |].
      split; [now apply sublist_skip |]. split; [exact Hnd' |]. split.
      * intros q Hq. apply elem_of_cons in Hq as [-> | Hq]; [| now apply Hcov].
        rewrite map_app. apply elem_of_app. right. simpl. now left.
      * intros a Ha. apply elem_of_cons in Ha as [-> | Ha].
        -- split; [exact Hin |]. exists [], rest. split; [reflexivity |].
           simpl. intros Hbad. now apply elem_of_nil in Hbad.
        -- destruct (Hfirst a Ha) as (Hns & before & after & -> & Hnb).
           split; [intros Hs; apply Hns; apply elem_of_union; now right |].
           exists (p :: before), after. split; [reflexivity |].
           simpl. intros Hbad.
           apply elem_of_cons in Hbad as [Heq | Hbad]; [| contradiction].
           apply Hns. apply elem_of_union. left.
           apply elem_of_singleton. exact Heq.
Qed.



Lemma unique_loop_throws (publications : list jsval) :
  forall (seen : gset string) (unique : list jsval),
    Exists (fun p => has_properties p = false) publications ->
    exists msg, unique_loop publications seen unique = Thrown msg.
Proof.
  induction publications as [| p rest IH]; intros seen unique Hex.
  - now apply Exists_nil in Hex.
  - cbn [unique_loop]. destruct (has_properties p) eqn:Hp.
    + rewrite (publication_identifier_defined p Hp).
      apply Exists_cons in Hex as [Hbad | Hex]; [congruence |].
      destruct (bool_decide _); now apply IH.
    + destruct (publication_identifier_throws p Hp) as [msg ->].
      now exists msg.
Qed.

Lemma unique_loop_returns (publications : list jsval) :
  forall (seen : gset string) (unique result : list jsval),
    unique_loop publications seen unique = Returned result ->
    Forall (fun p => has_properties p = true) publications.
Proof.
  intros seen unique result Hrun. apply Forall_forall. intros p Hp.
  destruct (has_properties p) eqn:Hprops; [reflexivity |].
  destruct (unique_loop_throws publications seen unique) as [msg Hmsg].
  - apply Exists_exists. now exists p.
  - congruence.
Qed.

(** A list with distinct identifiers, none of them in the Set, is kept as
    it is. *)
Lemma unique_loop_distinct (publications : list jsval) :
  forall (seen : gset string) (unique : list jsval),
    Forall (fun p => has_properties p = true) publications ->
    NoDup (map identifier_of publications) ->
    (forall p, p ∈ publications -> identifier_of p ∉ seen) ->
    unique_loop publications seen unique = Returned (unique ++ publications).
Proof.
  induction publications as [| p rest IH]; intros seen unique Hprops Hnd Hfresh.
  - now rewrite app_nil_r.
  - apply Forall_cons in Hprops as [Hp Hrest].
    simpl in Hnd. apply NoDup_cons in Hnd as [Hnotin Hnd].
    cbn [unique_loop]. rewrite (publication_identifier_defined p Hp).
    rewrite bool_decide_eq_false_2 by (apply Hfresh; now left).
    rewrite IH; [now rewrite <- app_assoc | exact Hrest | exact Hnd |].
    intros q Hq Hin. apply elem_of_union in Hin as [Hin | Hin].
    + apply elem_of_singleton in Hin. apply Hnotin. rewrite <- Hin.
      apply list_elem_of_fmap. now exists q.
    + apply (Hfresh q); [now right | exact Hin].
Qed.

(** X2: [removeDuplicatePublications] throws as soon as one element of the
    array is null or undefined, wherever it stands. *)
Theorem removeDuplicatePublications_null_element (publications : list jsval) :
  Exists (fun p => has_properties p = false) publications ->
  exists msg, removeDuplicatePublications (JArr publications) = Thrown msg.
Proof.
  intros Hex. now apply unique_loop_throws.
Qed.

(** The statement of X2 at a list whose second element is null. *)
Lemma removeDuplicatePublications_null_element_sample :
  exists msg,
    removeDuplicatePublications (JArr [titled "A" ""; JPrim PNull]) = Thrown msg.
Proof.
  apply (removeDuplicatePublications_null_element [titled "A" ""; JPrim PNull]).
  apply Exists_cons_tl, Exists_cons_hd. reflexivity.
Defined.

(** X3: [removeDuplicatePublications] is idempotent: applied to a list it
    returned, it returns that list. *)
Theorem removeDuplicatePublications_idempotent
    (publications : jsval) (unique : list jsval) :
  removeDuplicatePublications publications = Returned unique ->
  removeDuplicatePublications (JArr unique) = Returned unique.
Proof.
  intros Hrun. destruct publications as [p | items | props]; try discriminate.
  simpl in Hrun.
  pose proof (unique_loop_returns _ _ _ _ Hrun) as Hprops.
  destruct (unique_loop_spec items ∅ [] Hprops)
    as (added & Hrun' & Hsub & Hnd & _).
  - intros s. simpl. split; intros Hs.
    + now apply not_elem_of_empty in Hs.
    + now apply elem_of_nil in Hs.
  - constructor.
  - simpl in Hrun', Hnd. rewrite Hrun in Hrun'. injection Hrun' as <-.
    simpl. rewrite unique_loop_distinct; [reflexivity | | exact Hnd |].
    + apply Forall_forall. intros p Hp.
      rewrite Forall_forall in Hprops. apply Hprops.
      eapply elem_of_sublist; eassumption.
    + intros p _. apply not_elem_of_empty.
Qed.

(** The statement of X3 at [sample_publications]. *)
Lemma removeDuplicatePublications_idempotent_sample :
  removeDuplicatePublications (JArr [titled "A" "10.1/a"; titled "B" ""])
  = Returned [titled "A" "10.1/a"; titled "B" ""].
Proof.
  apply (removeDuplicatePublications_idempotent (JArr sample_publications)).
  vm_compute. reflexivity.
Defined.

(** X4: the identifier joins title and DOI with a hyphen, so two
    publications that differ in both are taken for one when the hyphen can
    be read at two places: the second is dropped. *)
Theorem removeDuplicatePublications_merges_hyphenated (t s d : string) :
  removeDuplicatePublications
    (JArr [titled (t +:+ "-" +:+ s) d; titled t (s +:+ "-" +:+ d)])
  = Returned [titled (t +:+ "-" +:+ s) d].
Proof.
  unfold removeDuplicatePublications. cbn [unique_loop].
  change (publication_identifier (titled (t +:+ "-" +:+ s) d))
    with (Returned ((t +:+ "-" +:+ s) +:+ "-" +:+ d)).
  change (publication_identifier (titled t (s +:+ "-" +:+ d)))
    with (Returned (t +:+ "-" +:+ (s +:+ "-" +:+ d))).
  cbv beta iota.
  rewrite bool_decide_eq_false_2 by apply not_elem_of_empty.
  rewrite bool_decide_eq_true_2; [reflexivity |].
  apply elem_of_union. left. apply elem_of_singleton.
  now rewrite !string_app_assoc.
Qed.

(** ** Metadata Normalizer *)

Lemma buildTopics_fold (nodes : list TopicNode) (topics : list jsval) :
  fold_left (fun topics node =>
               topics ++ [JObj [("uri", JPrim (node_url node));
                                ("term", JPrim (node_topic_name node));
                                ("vocabulary", JPrim (PStr ""))]])
            nodes topics
  = topics ++ map topic_of nodes.
Proof.
  revert topics. induction nodes as [| node nodes IH]; intros topics; simpl.
  - now rewrite app_nil_r.
  - rewrite IH, <- app_assoc. reflexivity.
Qed.

Lemma buildTopics_map (githubObject : RepositoryObject) :
  buildTopics githubObject
  = map topic_of (gh_repositoryTopics_nodes githubObject).
Proof.
  unfold buildTopics.
  destruct (gh_repositoryTopics_nodes githubObject) as [| node nodes] eqn:Hnodes;
    [reflexivity |].
  cbn [length Nat.ltb Nat.leb]. now rewrite buildTopics_fold.
Qed.

(** ** List-ID Preparer *)

Lemma prepare_field_iterable (field : string) (m : MetadataRecord)
    (items : list jsval) :
  iterate (field_value m field) = Returned items ->
  prepare_field field m = (Returned tt, <[field := JArr (imap term_id items)]> m).
Proof.
  intros Hf. unfold prepare_field, bind, get_field.
  change (default (JPrim PUndefined) (m !! field)) with (field_value m field).
  rewrite Hf. unfold set_field. rewrite number_items_imap. reflexivity.
Qed.

Lemma prepare_field_not_iterable (field : string) (m : MetadataRecord)
    (msg : string) :
  iterate (field_value m field) = Thrown msg ->
  prepare_field field m = (Thrown msg, m).
Proof.
  intros Hf. unfold prepare_field, bind, get_field.
  change (default (JPrim PUndefined) (m !! field)) with (field_value m field).
  rewrite Hf. reflexivity.
Qed.

Lemma field_value_insert_ne (m : MetadataRecord) (f g : string) (v : jsval) :
  f <> g -> field_value (<[f := v]> m) g = field_value m g.
Proof. intros Hne. unfold field_value. now rewrite lookup_insert_ne. Qed.

Lemma field_value_insert (m : MetadataRecord) (f : string) (v : jsval) :
  field_value (<[f := v]> m) f = v.
Proof. unfold field_value. now rewrite lookup_insert_eq. Qed.

Lemma has_array_iterable (m : MetadataRecord) (f : string) :
  has_array m f -> exists items, iterate (field_value m f) = Returned items.
Proof. intros [xs Hxs]. exists xs. unfold field_value. now rewrite Hxs. Qed.

(** The loop over field names that are pairwise distinct and all hold an
    iterable value. *)
Lemma for_each_prepare_iterable (fs : list string) :
  NoDup fs ->
  forall m : MetadataRecord,
    Forall (fun f => exists items, iterate (field_value m f) = Returned items) fs ->
    exists m' : MetadataRecord,
      for_each fs prepare_field m = (Returned tt, m')
      /\ (forall f items, f ∈ fs -> iterate (field_value m f) = Returned items ->
          m' !! f = Some (JArr (imap term_id items)))
      /\ (forall g, g ∉ fs -> m' !! g = m !! g).
Proof.
  induction 1 as [| f fs Hnotin Hnd IH]; intros m Hiter.
  - exists m. split; [reflexivity |]. split; [| reflexivity].
    intros f items Hin. now apply elem_of_nil in Hin.
  - apply Forall_cons in Hiter as [[items Hitems] Hiter].
    destruct (IH (<[f := JArr (imap term_id items)]> m)) as (m' & Hrun & Hin & Hout).
    { rewrite Forall_forall in Hiter. apply Forall_forall.
      intros g Hg. destruct (Hiter g Hg) as [ys Hys].
      exists ys. rewrite field_value_insert_ne; [exact Hys |].
      intros ->. contradiction. }
    exists m'. split; [| split].
    + simpl. unfold bind. rewrite (prepare_field_iterable f m items Hitems).
      exact Hrun.
    + intros g ys Hg Hys. apply elem_of_cons in Hg as [-> | Hg].
      * rewrite Hout by exact Hnotin. rewrite lookup_insert_eq. congruence.
      * apply Hin; [exact Hg |]. rewrite field_value_insert_ne; [exact Hys |].
        intros ->. contradiction.
    + intros g Hg. apply not_elem_of_cons in Hg as [Hne Hg].
      rewrite Hout by exact Hg. now rewrite lookup_insert_ne.
Qed.

Lemma for_each_app {A} (xs ys : list A) (body : A -> M unit) (m : MetadataRecord) :
  for_each (xs ++ ys) body m
  = match for_each xs body m with
    | (Returned _, m') => for_each ys body m'
    | (Thrown msg, m') => (Thrown msg, m')
    end.
Proof.
  revert m. induction xs as [| x xs IH]; intros m; [reflexivity |].
  simpl. unfold bind. destruct (body x m) as [[[] | msg] m1]; [apply IH | reflexivity].
Qed.

Lemma NoDup_app_left {A} (xs ys : list A) : NoDup (xs ++ ys) -> NoDup xs.
Proof. intros Hnd. now apply NoDup_app in Hnd as [? _]. Qed.

(** X5: [PrepareListsIds] never throws on the record [githubMetadata]
    builds: every designated field of that record holds an array, and holds
    afterwards the pairs [{term, id}] of its elements, the other fields
    being left as [githubMetadata] made them. *)
Theorem PrepareListsIds_after_githubMetadata (ghObject : RepositoryObject) :
  exists m' : MetadataRecord,
    PrepareListsIds (githubMetadata ghObject) = (Returned tt, m')
    /\ (forall f, f ∈ fields ->
        exists xs, githubMetadata ghObject !! f = Some (JArr xs)
                   /\ m' !! f = Some (JArr (imap term_id xs)))
    /\ (forall g, g ∉ fields -> m' !! g = githubMetadata ghObject !! g).
Proof.
  assert (Harr : Forall (has_array (githubMetadata ghObject)) fields)
    by (repeat constructor; eexists; reflexivity).
  destruct (for_each_prepare fields fields_NoDup (githubMetadata ghObject) Harr)
    as (m' & Hrun & Hin & Hout).
  exists m'. split; [exact Hrun |]. split; [| exact Hout].
  intros f Hf. rewrite Forall_forall in Harr.
  destruct (Harr f Hf) as [xs Hxs]. exists xs. split; [exact Hxs |].
  now apply Hin.
Qed.

(** X6: prepared after normalisation, the topics of the repository are
    listed in the order GitHub gave them and numbered from 0: the topic of
    the node at position [i] has become
    [{term: {uri, term, vocabulary: ''}, id: i}].  The versions, which are
    not among the designated fields, stay the plain list of the release
    tags in their order. *)
Theorem PrepareListsIds_numbers_topics (ghObject : RepositoryObject) :
  exists m' : MetadataRecord,
    PrepareListsIds (githubMetadata ghObject) = (Returned tt, m')
    /\ m' !! "topics"
       = Some (JArr (imap (fun i node => term_id i (topic_of node))
                          (gh_repositoryTopics_nodes ghObject)))
    /\ m' !! "version"
       = Some (JArr (map (fun node => JPrim (node_tagName node))
                         (gh_releases_nodes ghObject)))
    /\ (forall i node,
          gh_repositoryTopics_nodes ghObject !! i = Some node ->
          exists topics,
            m' !! "topics" = Some (JArr topics)
            /\ topics !! i = Some (term_id i (topic_of node))).
Proof.
  assert (Harr : Forall (has_array (githubMetadata ghObject)) fields)
    by (repeat constructor; eexists; reflexivity).
  destruct (for_each_prepare fields fields_NoDup (githubMetadata ghObject) Harr)
    as (m' & Hrun & Hin & Hout).
  assert (Htopics : m' !! "topics"
                    = Some (JArr (imap (fun i node => term_id i (topic_of node))
                                       (gh_repositoryTopics_nodes ghObject)))).
  { rewrite (Hin "topics" (buildTopics ghObject));
      [| apply (bool_decide_unpack _); vm_compute; exact I | reflexivity].
    rewrite buildTopics_map. do 2 f_equal. apply imap_fmap. }
  exists m'. split; [exact Hrun |]. split; [exact Htopics |]. split.
  - rewrite Hout; [reflexivity |].
    apply (bool_decide_unpack _). vm_compute. exact I.
  - intros i node Hnode. eexists. split; [exact Htopics |].
    rewrite list_lookup_imap, Hnode. reflexivity.
Qed.

(** X7: when a designated field holds a value that cannot be iterated (it
    is missing, say) while the designated fields listed before it hold
    arrays, [PrepareListsIds] throws and leaves the record half prepared:
    the fields listed before are already rewritten, every other field is as
    it was. *)
Theorem PrepareListsIds_stops_at_first_failure
    (m : MetadataRecord) (before after : list string) (f msg : string) :
  fields = before ++ f :: after ->
  Forall (has_array m) before ->
  iterate (field_value m f) = Thrown msg ->
  exists m' : MetadataRecord,
    PrepareListsIds m = (Thrown msg, m')
    /\ (forall g xs, g ∈ before -> m !! g = Some (JArr xs) ->
        m' !! g = Some (JArr (imap term_id xs)))
    /\ (forall g, g ∉ before -> m' !! g = m !! g).
Proof.
  intros Hfields Harr Hbad.
  pose proof fields_NoDup as Hnd. rewrite Hfields in Hnd.
  destruct (for_each_prepare before (NoDup_app_left _ _ Hnd) m Harr)
    as (m' & Hrun & Hin & Hout).
  exists m'. unfold PrepareListsIds. rewrite Hfields, for_each_app, Hrun.
  split; [| split; assumption].
  cbn [for_each]. unfold bind.
  rewrite (prepare_field_not_iterable f m' msg); [reflexivity |].
  unfold field_value. rewrite Hout; [exact Hbad |].
  apply NoDup_app in Hnd as (_ & Hdisj & _). intros Hf. apply (Hdisj f Hf). now left.
Qed.

(** The statement of X7 at a record without description, the fourth of the
    designated fields. *)
Lemma PrepareListsIds_stops_at_missing_description :
  exists m' : MetadataRecord,
    PrepareListsIds record_without_description = (Thrown "TypeError", m')
    /\ (forall g xs, g ∈ ["edam_topics"; "edam_operations"; "documentation"] ->
        record_without_description !! g = Some (JArr xs) ->
        m' !! g = Some (JArr (imap term_id xs)))
    /\ (forall g, g ∉ ["edam_topics"; "edam_operations"; "documentation"] ->
        m' !! g = record_without_description !! g).
Proof.
  apply (PrepareListsIds_stops_at_first_failure record_without_description
           ["edam_topics"; "edam_operations"; "documentation"]
           ["webpage"; "license"; "src"; "links"; "topics"; "operations"; "input";
            "output"; "repository"; "dependencies"; "os"; "authors"; "publication"]
           "description" "TypeError").
  - reflexivity.
  - repeat constructor; eexists; reflexivity.
  - reflexivity.
Defined.

(** X8: a designated field that holds a string is iterated as well: on a
    record whose designated fields hold arrays or strings,
    [PrepareListsIds] returns normally and a string has become the numbered
    list of its characters. *)
Theorem PrepareListsIds_splits_strings (m : MetadataRecord) :
  Forall (fun f => has_array m f \/ exists s, m !! f = Some (JPrim (PStr s))) fields ->
  exists m' : MetadataRecord,
    PrepareListsIds m = (Returned tt, m')
    /\ (forall f s, f ∈ fields -> m !! f = Some (JPrim (PStr s)) ->
        m' !! f = Some (JArr (imap term_id (characters s))))
    /\ (forall f xs, f ∈ fields -> m !! f = Some (JArr xs) ->
        m' !! f = Some (JArr (imap term_id xs)))
    /\ (forall g, g ∉ fields -> m' !! g = m !! g).
Proof.
  intros Hshape.
  destruct (for_each_prepare_iterable fields fields_NoDup m)
    as (m' & Hrun & Hin & Hout).
  - eapply Forall_impl; [exact Hshape |]. intros f [Harr | [s Hs]].
    + now apply has_array_iterable.
    + exists (characters s). unfold field_value. now rewrite Hs.
  - exists m'. split; [exact Hrun |]. split; [| split; [| exact Hout]].
    + intros f s Hf Hs. apply Hin; [exact Hf |].
      unfold field_value. now rewrite Hs.
    + intros f xs Hf Hxs. apply Hin; [exact Hf |].
      unfold field_value. now rewrite Hxs.
Qed.

(** The statement of X8 at a record whose description is the string "ab". *)
Lemma PrepareListsIds_splits_description :
  exists m' : MetadataRecord,
    PrepareListsIds record_with_text = (Returned tt, m')
    /\ (forall f s, f ∈ fields -> record_with_text !! f = Some (JPrim (PStr s)) ->
        m' !! f = Some (JArr (imap term_id (characters s))))
    /\ (forall f xs, f ∈ fields -> record_with_text !! f = Some (JArr xs) ->
        m' !! f = Some (JArr (imap term_id xs)))
    /\ (forall g, g ∉ fields -> m' !! g = record_with_text !! g).
Proof.
  apply (PrepareListsIds_splits_strings record_with_text).
  repeat (apply Forall_cons_2;
          [first [ left; eexists; reflexivity | right; eexists; reflexivity ] |]).
  apply Forall_nil_2.
Defined.

(** X9: [PrepareListsIds] is not idempotent: on a record it has prepared it
    returns normally again and wraps the pairs a second time. *)
Theorem PrepareListsIds_twice (m : MetadataRecord) :
  Forall (has_array m) fields ->
  exists m1 m2 : MetadataRecord,
    PrepareListsIds m = (Returned tt, m1)
    /\ PrepareListsIds m1 = (Returned tt, m2)
    /\ (forall f xs, f ∈ fields -> m !! f = Some (JArr xs) ->
        m2 !! f = Some (JArr (imap term_id (imap term_id xs))))
    /\ (forall g, g ∉ fields -> m2 !! g = m !! g).
Proof.
  intros Harr.
  destruct (for_each_prepare fields fields_NoDup m Harr)
    as (m1 & Hrun1 & Hin1 & Hout1).
  assert (Harr1 : Forall (has_array m1) fields).
  { rewrite Forall_forall in Harr. apply Forall_forall. intros f Hf.
    destruct (Harr f Hf) as [xs Hxs]. eexists. now apply (Hin1 f xs). }
  destruct (for_each_prepare fields fields_NoDup m1 Harr1)
    as (m2 & Hrun2 & Hin2 & Hout2).
  exists m1, m2. split; [exact Hrun1 |]. split; [exact Hrun2 |]. split.
  - intros f xs Hf Hxs. apply Hin2; [exact Hf |]. now apply Hin1.
  - intros g Hg. now rewrite Hout2, Hout1.
Qed.

(** The statement of X9 at [sample_record]. *)
Lemma PrepareListsIds_twice_sample :
  exists m1 m2 : MetadataRecord,
    PrepareListsIds sample_record = (Returned tt, m1)
    /\ PrepareListsIds m1 = (Returned tt, m2)
    /\ (forall f xs, f ∈ fields -> sample_record !! f = Some (JArr xs) ->
        m2 !! f = Some (JArr (imap term_id (imap term_id xs))))
    /\ (forall g, g ∉ fields -> m2 !! g = sample_record !! g).
Proof.
  apply (PrepareListsIds_twice sample_record).
  repeat constructor; eexists; reflexivity.
Defined.

(** ** Document Classifier *)






(** ** CITATION.cff Mapper *)

Lemma when_push_field_pushed (b : bool) (field : string) (v : jsval)
    (m : MetadataRecord) :
  pushed b field v m (snd (when b (push_field field v) m)).
Proof.
  destruct b; [| now left]. simpl. unfold push_field.
  destruct (m !! field) as [[p | xs | props] |] eqn:Hf; try (now left).
  right. split; [reflexivity |]. now exists xs.
Qed.

(** The record the body of the [try] block leaves, as a chain of the five
    statements; a statement that is not reached leaves the record as it
    is. *)
Lemma map_citation_chain (citationData : CitationData) (m : MetadataRecord) :
  exists m1,
    pushed (truthy (cff_license citationData)) "license"
      (citation_license citationData) m m1
    /\ exists m2,
      pushed (truthy (cff_title citationData)) "label"
        (JPrim (cff_title citationData)) m1 m2
      /\ exists m3,
        replaced_authors citationData m2 m3
        /\ exists m4,
          pushed (truthy (cff_version citationData)) "version"
            (JPrim (cff_version citationData)) m3 m4
          /\ pushed_citation citationData m4
               (snd (map_citation (Some citationData) m)).
Proof.
  unfold map_citation. rewrite snd_bind.
  pose proof (when_push_field_pushed (truthy (cff_license citationData)) "license"
                (citation_license citationData) m) as H1.
  unfold citation_license in H1 at 2.
  destruct (when _ _ m) as [[[] | e1] m1]; simpl in H1;
    [| exists m1; split; [exact H1 |]; stops_at m1].
  exists m1. split; [exact H1 |]. rewrite snd_bind.
  pose proof (when_push_field_pushed (truthy (cff_title citationData)) "label"
                (JPrim (cff_title citationData)) m1) as H2.
  destruct (when _ _ m1) as [[[] | e2] m2]; simpl in H2;
    [| exists m2; split; [exact H2 |]; stops_at m2].
  exists m2. split; [exact H2 |]. rewrite snd_bind.
  destruct (cff_authors citationData) as [[| author authors] |] eqn:Hauthors;
    [ exists m2 | | stops_at m2 ].
  - change (when (0 <? length (@nil CffAuthor))%nat
              (set_field "authors" (JArr (map citation_author []))) m2)
      with (@Returned unit tt, m2).
    cbv beta iota. split; [now left |].
    rewrite snd_bind.
    pose proof (when_push_field_pushed (truthy (cff_version citationData)) "version"
                  (JPrim (cff_version citationData)) m2) as H4.
    destruct (when _ _ m2) as [[[] | e4] m4]; simpl in H4;
      [| exists m4; split; [exact H4 | now left]].
    exists m4. split; [exact H4 |].
    destruct (cff_preferred_citation citationData) as [pc |] eqn:Hpc; [| now left].
    unfold push_field.
    destruct (m4 !! "publication") as [[p | xs | props] |] eqn:Hp; try (now left).
    right. now exists pc, xs.
  - exists (<["authors" := JArr (map citation_author (author :: authors))]> m2).
    change (when (0 <? length (author :: authors))%nat
              (set_field "authors" (JArr (map citation_author (author :: authors)))) m2)
      with (@Returned unit tt,
            <["authors" := JArr (map citation_author (author :: authors))]> m2).
    cbv beta iota. split; [right; now exists author, authors |].
    rewrite snd_bind.
    pose proof (when_push_field_pushed (truthy (cff_version citationData)) "version"
                  (JPrim (cff_version citationData))
                  (<["authors" := JArr (map citation_author (author :: authors))]> m2))
      as H4.
    destruct (when _ _ _) as [[[] | e4] m4]; simpl in H4;
      [| exists m4; split; [exact H4 | now left]].
    exists m4. split; [exact H4 |].
    destruct (cff_preferred_citation citationData) as [pc |] eqn:Hpc; [| now left].
    unfold push_field.
    destruct (m4 !! "publication") as [[p | xs | props] |] eqn:Hp; try (now left).
    right. now exists pc, xs.
Qed.

Lemma pushed_other (b : bool) (field : string) (v : jsval)
    (m m' : MetadataRecord) (g : string) :
  pushed b field v m m' -> g <> field -> m' !! g = m !! g.
Proof.
  intros [-> | (_ & xs & _ & ->)] Hne; [reflexivity |].
  now rewrite lookup_insert_ne.
Qed.

Lemma replaced_authors_other (citationData : CitationData)
    (m m' : MetadataRecord) (g : string) :
  replaced_authors citationData m m' -> g <> "authors" -> m' !! g = m !! g.
Proof.
  intros [-> | (author & authors & _ & ->)] Hne; [reflexivity |].
  now rewrite lookup_insert_ne.
Qed.

Lemma pushed_citation_other (citationData : CitationData)
    (m m' : MetadataRecord) (g : string) :
  pushed_citation citationData m m' -> g <> "publication" -> m' !! g = m !! g.
Proof.
  intros [-> | (pc & xs & _ & _ & ->)] Hne; [reflexivity |].
  now rewrite lookup_insert_ne.
Qed.

Lemma truthy_has_properties (p : prim) :
  truthy p = true -> has_properties (JPrim p) = true.
Proof. now destruct p. Qed.

Lemma pushed_kept_or_pushed (b : bool) (field : string) (v : jsval)
    (m m' : MetadataRecord) :
  pushed b field v m m' -> (b = true -> has_properties v = true) ->
  kept_or_pushed m m' field.
Proof.
  intros [-> | (Hb & xs & Hxs & ->)] Hv; [now left |].
  right. exists xs, v. rewrite lookup_insert_eq. auto.
Qed.

Lemma kept_or_pushed_frame (m m1 m2 m' : MetadataRecord) (field : string) :
  m1 !! field = m !! field ->
  kept_or_pushed m1 m2 field ->
  m' !! field = m2 !! field ->
  kept_or_pushed m m' field.
Proof.
  intros H1 [H2 | (xs & v & Hxs & Hv & Hp)] H3.
  - left. congruence.
  - right. exists xs, v. rewrite H3, <- H1. auto.
Qed.

Lemma parseCitationCFF_other
    (yaml_load : string -> outcome (option CitationData))
    (citationContent : string) (m : MetadataRecord) (g : string) :
  g ∉ ["license"; "label"; "authors"; "version"; "publication"] ->
  parseCitationCFF yaml_load citationContent m !! g = m !! g.
Proof.
  intros Hg. unfold parseCitationCFF.
  destruct (yaml_load citationContent) as [[citationData |] | e];
    [| reflexivity ..].
  destruct (map_citation_chain citationData m)
    as (m1 & H1 & m2 & H2 & m3 & H3 & m4 & H4 & H5).
  rewrite !not_elem_of_cons in Hg.
  destruct Hg as (Hl & Hla & Ha & Hv & Hp & _).
  rewrite (pushed_citation_other _ _ _ g H5 Hp), (pushed_other _ _ _ _ _ g H4 Hv),
    (replaced_authors_other _ _ _ g H3 Ha), (pushed_other _ _ _ _ _ g H2 Hla),
    (pushed_other _ _ _ _ _ g H1 Hl).
  reflexivity.
Qed.

Lemma parseCitationCFF_pushes
    (yaml_load : string -> outcome (option CitationData))
    (citationContent : string) (m : MetadataRecord) :
  Forall (kept_or_pushed m (parseCitationCFF yaml_load citationContent m))
    ["license"; "label"; "version"; "publication"].
Proof.
  unfold parseCitationCFF.
  destruct (yaml_load citationContent) as [[citationData |] | e];
    [| repeat constructor; now left ..].
  destruct (map_citation_chain citationData m)
    as (m1 & H1 & m2 & H2 & m3 & H3 & m4 & H4 & H5).
  set (m5 := snd (map_citation (Some citationData) m)) in *.
  repeat apply Forall_cons_2; [| | | | apply Forall_nil_2].
  - apply (kept_or_pushed_frame m m m1 m5); [reflexivity | |].
    + apply (pushed_kept_or_pushed _ _ _ _ _ H1). reflexivity.
    + rewrite (pushed_citation_other _ _ _ _ H5), (pushed_other _ _ _ _ _ _ H4),
        (replaced_authors_other _ _ _ _ H3), (pushed_other _ _ _ _ _ _ H2)
        by discriminate.
      reflexivity.
  - apply (kept_or_pushed_frame m m1 m2 m5).
    + now rewrite (pushed_other _ _ _ _ _ _ H1) by discriminate.
    + apply (pushed_kept_or_pushed _ _ _ _ _ H2). apply truthy_has_properties.
    + rewrite (pushed_citation_other _ _ _ _ H5), (pushed_other _ _ _ _ _ _ H4),
        (replaced_authors_other _ _ _ _ H3) by discriminate.
      reflexivity.
  - apply (kept_or_pushed_frame m m3 m4 m5).
    + rewrite (replaced_authors_other _ _ _ _ H3), (pushed_other _ _ _ _ _ _ H2),
        (pushed_other _ _ _ _ _ _ H1) by discriminate.
      reflexivity.
    + apply (pushed_kept_or_pushed _ _ _ _ _ H4). apply truthy_has_properties.
    + now rewrite (pushed_citation_other _ _ _ _ H5) by discriminate.
  - apply (kept_or_pushed_frame m m4 m5 m5); [| | reflexivity].
    + rewrite (pushed_other _ _ _ _ _ _ H4),
        (replaced_authors_other _ _ _ _ H3), (pushed_other _ _ _ _ _ _ H2),
        (pushed_other _ _ _ _ _ _ H1) by discriminate.
      reflexivity.
    + destruct H5 as [-> | (pc & xs & _ & Hxs & ->)]; [now left |].
      right. exists xs, (citation_publication pc).
      rewrite lookup_insert_eq. auto.
Qed.

Lemma parseCitationCFF_authors
    (yaml_load : string -> outcome (option CitationData))
    (citationContent : string) (m : MetadataRecord) :
  parseCitationCFF yaml_load citationContent m !! "authors" = m !! "authors"
  \/ exists author authors,
       parseCitationCFF yaml_load citationContent m !! "authors"
       = Some (JArr (map citation_author (author :: authors))).
Proof.
  unfold parseCitationCFF.
  destruct (yaml_load citationContent) as [[citationData |] | e];
    [| now left ..].
  destruct (map_citation_chain citationData m)
    as (m1 & H1 & m2 & H2 & m3 & H3 & m4 & H4 & H5).
  rewrite (pushed_citation_other _ _ _ "authors" H5),
    (pushed_other _ _ _ _ _ "authors" H4) by discriminate.
  destruct H3 as [-> | (author & authors & _ & ->)].
  - left. rewrite (pushed_other _ _ _ _ _ _ H2), (pushed_other _ _ _ _ _ _ H1)
      by discriminate.
    reflexivity.
  - right. exists author, authors. apply lookup_insert_eq.
Qed.

(** X12: whatever the citation file holds and wherever the mapping stops,
    [parseCitationCFF] changes the record in five fields at most: each of
    [license], [label], [version] and [publication] is as it was or has one
    more element at its end, an element that is neither null nor undefined;
    the authors are as they were or are a non-empty list of citation
    authors; every other field is untouched. *)
Theorem parseCitationCFF_appends_only
    (yaml_load : string -> outcome (option CitationData))
    (citationContent : string) (m : MetadataRecord) :
  (forall g, g ∉ ["license"; "label"; "authors"; "version"; "publication"] ->
             parseCitationCFF yaml_load citationContent m !! g = m !! g)
  /\ Forall (kept_or_pushed m (parseCitationCFF yaml_load citationContent m))
       ["license"; "label"; "version"; "publication"]
  /\ (parseCitationCFF yaml_load citationContent m !! "authors" = m !! "authors"
      \/ exists author authors,
           parseCitationCFF yaml_load citationContent m !! "authors"
           = Some (JArr (map citation_author (author :: authors)))).
Proof.
  split; [| split].
  - intros g. apply parseCitationCFF_other.
  - apply parseCitationCFF_pushes.
  - apply parseCitationCFF_authors.
Qed.



(** ** BibTeX Extractor *)

(** Whatever the text, the loop returns some of the entries found when the
    search stops at every index, in their order. *)
Lemma exec_loop_sublist (content : string) :
  forall covered : nat,
    sublist (exec_loop content covered []) (entries_from content).
Proof.
  induction content as [| c content' IH]; intros covered; [constructor |].
  cbn [exec_loop entries_from]. destruct covered as [| covered'].
  - unfold entry_here.
    destruct (startRegex (String c content')) as [[match0 rest] |].
    + rewrite exec_loop_entries_acc.
      destruct (close_entry rest 1 match0) as [entry |].
      * apply sublist_app; [reflexivity | apply IH].
      * apply IH.
    + apply IH.
  - apply sublist_inserts_l, IH.
Qed.

Lemma Forall2_sublist_r {A B} (R : A -> B -> Prop) (xs : list A) (ys : list B) :
  Forall2 R xs ys ->
  forall ys', sublist ys' ys ->
  exists xs', sublist xs' xs /\ Forall2 R xs' ys'.
Proof.
  induction 1 as [| x y xs ys Hxy Hrest IH]; intros ys' Hsub.
  - apply sublist_nil_r in Hsub as ->. exists []. split; constructor.
  - apply sublist_cons_r in Hsub as [Hsub | (ys'' & -> & Hsub)].
    + destruct (IH ys' Hsub) as (xs' & Hxs & Hall).
      exists xs'. split; [now apply sublist_cons | exact Hall].
    + destruct (IH ys'' Hsub) as (xs' & Hxs & Hall).
      exists (x :: xs'). split; [now apply sublist_skip | now constructor].
Qed.

Lemma StronglySorted_sublist {A} (R : A -> A -> Prop) (xs : list A) :
  StronglySorted R xs -> forall xs', sublist xs' xs -> StronglySorted R xs'.
Proof.
  induction 1 as [| x xs Hsorted IH Hx]; intros xs' Hsub.
  - apply sublist_nil_r in Hsub as ->. constructor.
  - apply sublist_cons_r in Hsub as [Hsub | (xs'' & -> & Hsub)]; [now apply IH |].
    constructor; [now apply IH |].
    apply List.Forall_forall. intros y Hy.
    rewrite List.Forall_forall in Hx. apply Hx.
    apply list_elem_of_In. eapply elem_of_sublist; [| exact Hsub].
    now apply list_elem_of_In.
Qed.

(** X14: whatever the README holds, every entry [extractBibTeXEntries]
    returns is a well-formed entry of the normalised text (a header of the
    pattern, a body whose braces nest properly, and the closing brace), and
    the entries are returned in the order of their positions, which are
    pairwise distinct. *)
Theorem extractBibTeXEntries_entries_of_the_text
    (normalize : string -> string) (content : prim) :
  exists ps : list nat,
    StronglySorted lt ps
    /\ Forall2 (entry_at (normalize (remove_backticks (ToString content)))) ps
         (extractBibTeXEntries normalize content).
Proof.
  unfold extractBibTeXEntries.
  set (t := normalize (remove_backticks (ToString content))).
  destruct (entries_from_spec t EmptyString) as (ps & Hsorted & _ & Hall).
  change (EmptyString +:+ t) with t in Hall.
  destruct (Forall2_sublist_r _ _ _ Hall _ (exec_loop_sublist t 0))
    as (ps' & Hsub & Hall').
  exists ps'. split; [| exact Hall'].
  exact (StronglySorted_sublist _ _ Hsorted _ Hsub).
Qed.

Lemma close_entry_unclosed (rest : string) :
  forall (braceCount : Z) (entry : string),
    (1 <= braceCount)%Z ->
    char_free "}" rest = true ->
    close_entry rest braceCount entry = None.
Proof.
  induction rest as [| c rest IH]; intros braceCount entry Hcount Hfree;
    [reflexivity |].
  cbn [close_entry]. unfold char_free in Hfree. cbn [string_forall] in Hfree.
  apply andb_true_iff in Hfree as [Hc Hfree]. apply negb_true_iff in Hc.
  rewrite Hc. destruct (is_char c "{").
  - replace (braceCount + 1 =? 0)%Z with false by (symmetry; apply Z.eqb_neq; lia).
    apply IH; [lia | exact Hfree].
  - replace (braceCount =? 0)%Z with false by (symmetry; apply Z.eqb_neq; lia).
    apply IH; [lia | exact Hfree].
Qed.

Lemma exec_loop_no_at (content : string) :
  forall (covered : nat) (entries : list string),
    char_free "@" content = true ->
    exec_loop content covered entries = entries.
Proof.
  induction content as [| c content' IH]; intros covered entries Hfree;
    [reflexivity |].
  unfold char_free in Hfree. cbn [string_forall] in Hfree.
  apply andb_true_iff in Hfree as [Hc Hfree]. apply negb_true_iff in Hc.
  cbn [exec_loop]. destruct covered as [| covered']; [| now apply IH].
  rewrite (startRegex_not_at c content' Hc). now apply IH.
Qed.

Lemma exec_loop_no_closing_brace (content : string) :
  forall (covered : nat) (entries : list string),
    char_free "}" content = true ->
    exec_loop content covered entries = entries.
Proof.
  induction content as [| c content' IH]; intros covered entries Hfree;
    [reflexivity |].
  assert (Hfree' : char_free "}" content' = true).
  { unfold char_free in Hfree |- *. cbn [string_forall] in Hfree.
    now apply andb_true_iff in Hfree as [_ Hfree]. }
  cbn [exec_loop]. destruct covered as [| covered']; [| now apply IH].
  destruct (startRegex (String c content')) as [[match0 rest] |] eqn:Hre;
    [| now apply IH].
  apply startRegex_sound in Hre as [Hsplit _].
  rewrite Hsplit, char_free_app in Hfree.
  apply andb_true_iff in Hfree as [_ Hrest].
  rewrite (close_entry_unclosed rest 1 match0) by (lia || exact Hrest).
  now apply IH.
Qed.

(** X15: a README whose normalised text has no [@], or has no closing
    brace, gives no entry at all. *)
Theorem extractBibTeXEntries_nothing_to_find
    (normalize : string -> string) (content : prim) :
  char_free "@" (normalize (remove_backticks (ToString content))) = true
  \/ char_free "}" (normalize (remove_backticks (ToString content))) = true ->
  extractBibTeXEntries normalize content = [].
Proof.
  unfold extractBibTeXEntries.
  intros [Hfree | Hfree];
    [now apply exec_loop_no_at | now apply exec_loop_no_closing_brace].
Qed.

(** The statement of X15 at a README with a header that is never closed. *)
Lemma extractBibTeXEntries_nothing_to_find_sample :
  extractBibTeXEntries (fun s => s) (PStr "see @article{doe2020, title={A") = [].
Proof.
  apply (extractBibTeXEntries_nothing_to_find (fun s => s)
           (PStr "see @article{doe2020, title={A")).
  right. reflexivity.
Defined.

(** ** Publication Builder *)

Lemma js_or_filled (v : prim) : filled (js_or v (PStr "")).
Proof.
  unfold js_or. destruct (truthy v) eqn:Hv; [now right | left; now exists ""].
Qed.

Lemma clean_value_filled (v : prim) : filled v -> filled (clean_value v).
Proof.
  intros Hv. destruct v as [| | b | n | s]; try exact Hv.
  left. unfold clean_value. destruct (_ && _); eauto.
Qed.

(** X16: whatever the parser returns for an entry, the four fields of every
    publication [extractJournalPublication] builds are filled: each is a
    string, possibly the empty one, or a truthy value, never undefined or
    null. *)
Theorem extractJournalPublication_fields_filled
    (normalize : string -> string)
    (parse : string -> outcome (list (string * list (string * prim))))
    (content : prim) :
  Forall (fun new_pub =>
            filled (pub_title new_pub) /\ filled (pub_year new_pub)
            /\ filled (pub_doi new_pub) /\ filled (pub_url new_pub))
         (extractJournalPublication normalize parse content).
Proof.
  unfold extractJournalPublication, build_publications.
  generalize (extractBibTeXEntries normalize content). intros entries.
  assert (Hacc : forall publications : list Publication,
            Forall (fun new_pub =>
                      filled (pub_title new_pub) /\ filled (pub_year new_pub)
                      /\ filled (pub_doi new_pub) /\ filled (pub_url new_pub))
                   publications ->
            Forall (fun new_pub =>
                      filled (pub_title new_pub) /\ filled (pub_year new_pub)
                      /\ filled (pub_doi new_pub) /\ filled (pub_url new_pub))
                   (fold_left (fun publications entry =>
                                 match entry_publication parse entry with
                                 | Returned new_pub => publications ++ [new_pub]
                                 | Thrown _ => publications
                                 end)
                              entries publications)).
  { induction entries as [| entry entries IH]; intros publications Hpubs;
      [exact Hpubs |].
    cbn [fold_left]. apply IH.
    destruct (entry_publication parse entry) as [new_pub | e] eqn:Hentry;
      [| exact Hpubs].
    apply Forall_app. split; [exact Hpubs |]. apply Forall_cons_2; [| constructor].
    unfold entry_publication in Hentry.
    destruct (parse entry) as [[| [key parsed_key] others] | e]; try discriminate.
    injection Hentry as <-. unfold cleanBracketsInObject. cbn.
    repeat split; apply clean_value_filled, js_or_filled. }
  apply Hacc. constructor.
Qed.

(** ** Branch names *)

Lemma number_max_comm (a b : number) : number_max a b = number_max b a.
Proof. destruct a, b; simpl; try reflexivity. now rewrite Z.max_comm. Qed.

Lemma number_max_assoc (a b c : number) :
  number_max a (number_max b c) = number_max (number_max a b) c.
Proof. destruct a, b, c; simpl; try reflexivity. now rewrite Z.max_assoc. Qed.

Lemma fold_number_max_Permutation (xs ys : list number) :
  xs ≡ₚ ys ->
  forall acc, fold_left number_max xs acc = fold_left number_max ys acc.
Proof.
  induction 1 as [| x xs ys _ IH | x y xs | xs ys zs _ IH1 _ IH2]; intros acc.
  - reflexivity.
  - simpl. apply IH.
  - simpl. f_equal.
    rewrite <- !number_max_assoc. f_equal. apply number_max_comm.
  - now rewrite IH1.
Qed.

Lemma fold_number_max_head (xs : list number) (x y : number) :
  fold_left number_max (y :: xs) x = fold_left number_max (x :: xs) y.
Proof. simpl. now rewrite number_max_comm. Qed.

(** The maximum of a non-empty list does not depend on which element comes
    first. *)
Lemma number_max_list_Permutation (x y : number) (xs ys : list number) :
  x :: xs ≡ₚ y :: ys ->
  fold_left number_max xs x = fold_left number_max ys y.
Proof.
  intros Hperm.
  destruct (Permutation_cons_inv_l _ _ _ Hperm) as (k1 & k2 & Hsplit & Hxs).
  destruct k1 as [| z k1]; simpl in Hsplit; injection Hsplit as <- ->.
  - now apply fold_number_max_Permutation.
  - rewrite (fold_number_max_Permutation _ _ Hxs x).
    rewrite (fold_number_max_Permutation (k1 ++ x :: k2) (x :: k1 ++ k2))
      by (symmetry; apply Permutation_middle).
    apply fold_number_max_head.
Qed.

(** X17: the name [generateBranchName] returns does not depend on the order
    of the branches. *)
Theorem generateBranchName_order_independent (names names' : list jsval) :
  names ≡ₚ names' ->
  generateBranchName (JArr names) = generateBranchName (JArr names').
Proof.
  intros Hperm. unfold generateBranchName.
  pose proof (omap_Permutation evaluator_number _ _ Hperm) as Hnumbers.
  destruct (omap evaluator_number names) as [| x xs],
    (omap evaluator_number names') as [| y ys].
  - reflexivity.
  - now apply Permutation_nil_cons in Hnumbers.
  - symmetry in Hnumbers. now apply Permutation_nil_cons in Hnumbers.
  - now rewrite (number_max_list_Permutation x y xs ys Hnumbers).
Qed.

(** The statement of X17 at the branches of the documented example, in two
    orders. *)
Lemma generateBranchName_order_independent_sample :
  generateBranchName (branch_names ["master"; "evaluator"; "evaluator-1"])
  = generateBranchName (branch_names ["evaluator-1"; "master"; "evaluator"]).
Proof.
  apply (generateBranchName_order_independent
           [JPrim (PStr "master"); JPrim (PStr "evaluator"); JPrim (PStr "evaluator-1")]
           [JPrim (PStr "evaluator-1"); JPrim (PStr "master"); JPrim (PStr "evaluator")]).
  change [JPrim (PStr "master"); JPrim (PStr "evaluator"); JPrim (PStr "evaluator-1")]
    with ([JPrim (PStr "master"); JPrim (PStr "evaluator")]
          ++ [JPrim (PStr "evaluator-1")]).
  apply Permutation_app_comm.
Defined.







(** ** Pipeline Orchestrator *)

Lemma has_array_insert (m : MetadataRecord) (f g : string) (xs : list jsval) :
  has_array m g -> has_array (<[f := JArr xs]> m) g.
Proof.
  intros [ys Hys]. destruct (decide (f = g)) as [-> | Hne].
  - exists xs. apply lookup_insert_eq.
  - exists ys. now rewrite lookup_insert_ne.
Qed.

Lemma has_array_insert_other (m : MetadataRecord) (f g : string) (v : jsval) :
  f <> g -> has_array m g -> has_array (<[f := v]> m) g.
Proof. intros Hne [ys Hys]. exists ys. now rewrite lookup_insert_ne. Qed.

Lemma kept_or_pushed_array (m m' : MetadataRecord) (f : string) :
  kept_or_pushed m m' f -> has_array m f -> has_array m' f.
Proof.
  intros [Hkept | (xs & v & _ & Hpushed & _)] [ys Hys].
  - exists ys. congruence.
  - eexists. exact Hpushed.
Qed.

(** The mapper keeps arrays arrays. *)
Lemma parseCitationCFF_has_array
    (yaml_load : string -> outcome (option CitationData))
    (citationContent : string) (m : MetadataRecord) (f : string) :
  has_array m f -> has_array (parseCitationCFF yaml_load citationContent m) f.
Proof.
  intros Harr.
  pose proof (parseCitationCFF_pushes yaml_load citationContent m) as Hpush.
  rewrite Forall_forall in Hpush.
  destruct (decide (f ∈ ["license"; "label"; "version"; "publication"])) as [Hf | Hf].
  - exact (kept_or_pushed_array _ _ _ (Hpush f Hf) Harr).
  - destruct (decide (f = "authors")) as [-> | Hne].
    + destruct (parseCitationCFF_authors yaml_load citationContent m)
        as [Hkept | (author & authors & Hnew)].
      * destruct Harr as [ys Hys]. exists ys. congruence.
      * eexists. exact Hnew.
    + destruct Harr as [ys Hys]. exists ys.
      rewrite parseCitationCFF_other; [exact Hys |].
      intros Hin. apply Hf.
      repeat (apply elem_of_cons in Hin as [-> | Hin];
              [first [ contradiction
                     | apply (bool_decide_unpack _); vm_compute; exact I ] |]).
      now apply elem_of_nil in Hin.
Qed.

(** The mapper keeps the publications a list of values with properties. *)
Lemma parseCitationCFF_publications
    (yaml_load : string -> outcome (option CitationData))
    (citationContent : string) (m : MetadataRecord) (publications : list jsval) :
  m !! "publication" = Some (JArr publications) ->
  Forall (fun p => has_properties p = true) publications ->
  exists publications',
    parseCitationCFF yaml_load citationContent m !! "publication"
    = Some (JArr publications')
    /\ Forall (fun p => has_properties p = true) publications'
    /\ (publications' = publications
        \/ exists v, publications' = publications ++ [v]).
Proof.
  intros Hpubs Hprops.
  pose proof (parseCitationCFF_pushes yaml_load citationContent m) as Hpush.
  rewrite Forall_forall in Hpush.
  destruct (Hpush "publication") as [Hkept | (xs & v & Hxs & Hpushed & Hv)].
  - apply (bool_decide_unpack _). vm_compute. exact I.
  - exists publications. rewrite Hkept. auto.
  - rewrite Hpubs in Hxs. injection Hxs as <-.
    exists (publications ++ [v]). split; [exact Hpushed |]. split; [| eauto].
    apply Forall_app. split; [exact Hprops |]. now apply Forall_cons_2.
Qed.

(** The [if (citationContent)] block on a record whose publications are a
    list of values with properties. *)
Lemma citation_step_spec
    (yaml_load : string -> outcome (option CitationData))
    (text : string) (m : MetadataRecord) (publications : list jsval) :
  m !! "publication" = Some (JArr publications) ->
  Forall (fun p => has_properties p = true) publications ->
  exists publications' unique,
    citation_step yaml_load text m
    = (Returned tt,
       <["publication" := JArr unique]>
         (parseCitationCFF yaml_load text (<["citation" := JPrim (PStr text)]> m)))
    /\ (publications' = publications \/ exists v, publications' = publications ++ [v])
    /\ removeDuplicatePublications (JArr publications') = Returned unique
    /\ sublist unique publications'
    /\ NoDup (map identifier_of unique)
    /\ (forall p, p ∈ publications' ->
                  identifier_of p ∈ map identifier_of unique).
Proof.
  intros Hpubs Hprops.
  destruct (parseCitationCFF_publications yaml_load text
              (<["citation" := JPrim (PStr text)]> m) publications)
    as (publications' & Hpubs' & Hprops' & Hshape).
  { rewrite lookup_insert_ne by discriminate. exact Hpubs. }
  { exact Hprops. }
  destruct (unique_loop_spec publications' ∅ [] Hprops')
    as (unique & Hrun & Hsub & Hnd & Hcov & _).
  { intros s. simpl. split; intros Hs.
    - now apply not_elem_of_empty in Hs.
    - now apply elem_of_nil in Hs. }
  { constructor. }
  simpl in Hrun, Hnd, Hcov.
  exists publications', unique.
  split; [| repeat split; assumption].
  unfold citation_step, bind, set_field, get_field. cbv beta iota.
  rewrite Hpubs'.
  change (removeDuplicatePublications (default (JPrim PUndefined)
                                         (Some (JArr publications'))))
    with (unique_loop publications' ∅ []).
  rewrite Hrun. reflexivity.
Qed.

Lemma Publication_obj_has_properties (publications : list Publication) :
  Forall (fun p => has_properties p = true) (map Publication_obj publications).
Proof. apply Forall_forall. intros p Hp. apply list_elem_of_fmap in Hp as (q & -> & _). reflexivity. Qed.

(** The record the route has collected when it reaches the preparer, and
    what holds of it. *)
Lemma metadata_route_collected
    (yaml_load : string -> outcome (option CitationData))
    (normalize : string -> string)
    (parse : string -> outcome (list (string * list (string * prim))))
    (repository : RepositoryObject) (documentation : list DocumentationEntry)
    (readmeContent : prim) (citationContent : option string)
    (prepare readme_extract : bool) :
  exists (m : MetadataRecord) (unique : list jsval),
    metadata_route yaml_load normalize parse repository documentation
      readmeContent citationContent prepare readme_extract
    = when prepare PrepareListsIds m
    /\ Forall (has_array m) fields
    /\ m !! "documentation" = Some (JArr (map DocumentationEntry_obj documentation))
    /\ m !! "citation"
       = ((fun text => JPrim (PStr text)) <$> citation_found citationContent)
    /\ m !! "publication" = Some (JArr unique)
    /\ (citation_found citationContent = None ->
        unique = readme_publications normalize parse readmeContent readme_extract)
    /\ (forall text, citation_found citationContent = Some text ->
        NoDup (map identifier_of unique)
        /\ (forall p,
              p ∈ readme_publications normalize parse readmeContent readme_extract ->
              identifier_of p ∈ map identifier_of unique)
        /\ exists publications',
             removeDuplicatePublications (JArr publications') = Returned unique
             /\ (publications'
                 = readme_publications normalize parse readmeContent readme_extract
                 \/ exists v,
                      publications'
                      = readme_publications normalize parse readmeContent
                          readme_extract ++ [v]))
    /\ (forall g, g ∉ route_fields -> m !! g = githubMetadata repository !! g).
Proof.
  unfold metadata_route.
  assert (Harr0 : Forall (has_array (githubMetadata repository)) fields)
    by (repeat constructor; eexists; reflexivity).
  assert (Hpub0 : githubMetadata repository !! "publication" = Some (JArr []))
    by reflexivity.
  assert (Hcit0 : githubMetadata repository !! "citation" = None) by reflexivity.
  set (m0 := githubMetadata repository) in *. clearbody m0.
  set (docs := map DocumentationEntry_obj documentation).
  set (m1 := <["documentation" := JArr docs]> m0).
  set (readme := readme_publications normalize parse readmeContent readme_extract).
  set (m2 := if readme_extract then <["publication" := JArr readme]> m1 else m1).
  assert (Hstep2 : when readme_extract
                     (set_field "publication"
                        (JArr (map Publication_obj
                                 (extractJournalPublication normalize parse
                                    readmeContent)))) m1
                   = (Returned tt, m2)).
  { subst m2 readme. unfold readme_publications. now destruct readme_extract. }
  assert (Harr2 : Forall (has_array m2) fields).
  { eapply Forall_impl; [exact Harr0 |]. intros f Hf. subst m2 m1.
    destruct readme_extract; repeat apply has_array_insert; exact Hf. }
  assert (Hpub2 : m2 !! "publication" = Some (JArr readme)).
  { subst m2 m1 readme. unfold readme_publications. destruct readme_extract.
    - apply lookup_insert_eq.
    - rewrite lookup_insert_ne by discriminate. exact Hpub0. }
  assert (Hdoc2 : m2 !! "documentation" = Some (JArr docs)).
  { subst m2 m1. destruct readme_extract.
    - rewrite lookup_insert_ne by discriminate. apply lookup_insert_eq.
    - apply lookup_insert_eq. }
  assert (Hcit2 : m2 !! "citation" = None).
  { subst m2 m1. destruct readme_extract;
      rewrite ?lookup_insert_ne by discriminate; exact Hcit0. }
  assert (Hframe2 : forall g, g ∉ route_fields -> m2 !! g = m0 !! g).
  { intros g Hg. unfold route_fields in Hg. rewrite !not_elem_of_cons in Hg.
    destruct Hg as (Hd & Hp & _). subst m2 m1.
    destruct readme_extract; now rewrite ?lookup_insert_ne by congruence. }
  assert (Hprops2 : Forall (fun p => has_properties p = true) readme).
  { subst readme. unfold readme_publications. destruct readme_extract.
    - apply Publication_obj_has_properties.
    - constructor. }
  unfold bind at 1. unfold set_field at 1. fold docs. fold m1.
  unfold bind at 1. rewrite Hstep2.
  unfold bind at 1.
  destruct (citation_found citationContent) as [text |] eqn:Hfound.
  - assert (Hcontent : citationContent = Some text /\ String.eqb text "" = false).
    { unfold citation_found in Hfound.
      destruct citationContent as [text' |]; [| discriminate].
      destruct (String.eqb text' "") eqn:He; [discriminate |].
      injection Hfound as <-. auto. }
    destruct Hcontent as [-> Hne]. rewrite Hne. cbn [negb].
    destruct (citation_step_spec yaml_load text m2 readme Hpub2 Hprops2)
      as (publications' & unique & Hrun & Hshape & Hdedupe & Hsub & Hnd & Hcov).
    rewrite Hrun.
    set (m3 := parseCitationCFF yaml_load text (<["citation" := JPrim (PStr text)]> m2)).
    exists (<["publication" := JArr unique]> m3), unique.
    split; [reflexivity |]. split; [| split; [| split; [| split; [| split; [| split]]]]].
    + eapply Forall_impl; [exact Harr2 |]. intros f Hf.
      apply has_array_insert. subst m3. apply parseCitationCFF_has_array.
      destruct (decide ("citation" = f)) as [<- | Hcf].
      * destruct Hf as [ys Hys]. congruence.
      * now apply has_array_insert_other.
    + rewrite lookup_insert_ne by discriminate. subst m3.
      rewrite parseCitationCFF_other
        by (apply (bool_decide_unpack _); vm_compute; exact I).
      rewrite lookup_insert_ne by discriminate. exact Hdoc2.
    + rewrite lookup_insert_ne by discriminate. subst m3.
      rewrite parseCitationCFF_other
        by (apply (bool_decide_unpack _); vm_compute; exact I).
      apply lookup_insert_eq.
    + apply lookup_insert_eq.
    + discriminate.
    + intros text' _. split; [exact Hnd |]. split.
      * intros p Hp. apply Hcov.
        destruct Hshape as [-> | [v ->]]; [exact Hp |].
        apply elem_of_app. now left.
      * exists publications'. split; [exact Hdedupe | exact Hshape].
    + intros g Hg. rewrite <- (Hframe2 g Hg).
      unfold route_fields in Hg. rewrite !not_elem_of_cons in Hg.
      destruct Hg as (Hd & Hp & Hc & Hl & Hla & Ha & Hv & _).
      rewrite lookup_insert_ne by congruence. subst m3.
      rewrite parseCitationCFF_other.
      * now rewrite lookup_insert_ne by congruence.
      * intros Hin.
        repeat (apply elem_of_cons in Hin as [-> | Hin]; [contradiction |]).
        now apply elem_of_nil in Hin.
  - assert (Hskip : match citationContent with
                    | Some text =>
                        if negb (String.eqb text "") then citation_step yaml_load text
                        else ret tt
                    | None => ret tt
                    end = ret tt).
    { unfold citation_found in Hfound.
      destruct citationContent as [text |]; [| reflexivity].
      now destruct (String.eqb text ""). }
    rewrite Hskip. unfold ret at 1. cbv beta iota.
    exists m2, readme.
    split; [reflexivity |]. split; [exact Harr2 |]. split; [exact Hdoc2 |].
    split; [exact Hcit2 |]. split; [exact Hpub2 |]. split; [reflexivity |].
    split; [discriminate | exact Hframe2].
Qed.

Section Route.

Variable yaml_load : string -> outcome (option CitationData).
Variable normalize : string -> string.
Variable parse : string -> outcome (list (string * list (string * prim))).
Variable repository : RepositoryObject.
Variable documentation : list DocumentationEntry.
Variable readmeContent : prim.
Variable citationContent : option string.


(** X20: with [prepare] set, the record the route answers with has every
    designated field in the prepared form, a list of pairs [{term, id}];
    its documentation is the numbered list of the documentation entries;
    it has a [citation] field exactly when a citation text that is not
    empty was found, and then this text; and apart from the designated
    fields and [citation], [label] and [version], it is the record
    [githubMetadata] built. *)
Theorem metadata_route_prepared (readme_extract : bool) :
  exists m' : MetadataRecord,
    metadata_route yaml_load normalize parse repository documentation
      readmeContent citationContent true readme_extract
    = (Returned tt, m')
    /\ (forall f, f ∈ fields -> exists xs, m' !! f = Some (JArr (imap term_id xs)))
    /\ m' !! "documentation"
       = Some (JArr (imap term_id (map DocumentationEntry_obj documentation)))
    /\ m' !! "citation"
       = ((fun text => JPrim (PStr text)) <$> citation_found citationContent)
    /\ (forall g, g ∉ fields -> g ∉ route_fields ->
                  m' !! g = githubMetadata repository !! g).
Proof.
  destruct (metadata_route_collected yaml_load normalize parse repository
              documentation readmeContent citationContent true readme_extract)
    as (m & unique & -> & Harr & Hdoc & Hcit & _ & _ & _ & Hframe).
  destruct (for_each_prepare fields fields_NoDup m Harr) as (m' & Hrun & Hin & Hout).
  exists m'. split; [exact Hrun |]. split; [| split; [| split]].
  - intros f Hf. rewrite Forall_forall in Harr.
    destruct (Harr f Hf) as [xs Hxs]. exists xs. now apply Hin.
  - apply Hin; [| exact Hdoc].
    apply (bool_decide_unpack _). vm_compute. exact I.
  - rewrite Hout; [exact Hcit |].
    apply (bool_decide_unpack _). vm_compute. exact I.
  - intros g Hg Hroute. rewrite Hout by exact Hg. now apply Hframe.
Qed.


End Route.

(** The route on a README that cites the same article twice: both
    publications are kept when the repository has no citation file, one is
    kept when it has one. *)
Example metadata_route_readme_repetition :
  snd (metadata_route sample_yaml (fun s => s) sample_parse sample_repository []
         readme_twice None false true) !! "publication"
  = Some (JArr [titled "T" ""; titled "T" ""])
  /\ snd (metadata_route sample_yaml (fun s => s) sample_parse sample_repository []
            readme_twice (Some "title: Tool") false true) !! "publication"
     = Some (JArr [titled "T" ""]).
Proof. split; vm_compute; reflexivity. Qed.

(** ** Route handlers of the extractor *)

Lemma try_metadata_outcome
    (yaml_load : string -> outcome (option CitationData))
    (normalize : string -> string)
    (parse : string -> outcome (list (string * list (string * prim))))
    (providers : Providers) (prepare readme_extract : bool) :
  match provider_failure providers with
  | Some error =>
      try_metadata yaml_load normalize parse providers prepare readme_extract
      = inr error
  | None =>
      exists metadata,
        try_metadata yaml_load normalize parse providers prepare readme_extract
        = inl metadata
  end.
Proof.
  unfold provider_failure, try_metadata.
  destruct (authenticated providers) as [error |]; [reflexivity |].
  destruct (repository_object providers) as [repository | error]; [| reflexivity].
  destruct (documentation_files providers) as [documentation | error];
    [| reflexivity].
  destruct (metadata_route_collected yaml_load normalize parse repository
              documentation (readme_text providers) (citation_text providers)
              prepare readme_extract)
    as (m & unique & -> & Harr & _).
  destruct prepare; [| now exists m].
  destruct (for_each_prepare fields fields_NoDup m Harr) as (m' & Hrun & _).
  unfold when, PrepareListsIds. rewrite Hrun. now exists m'.
Qed.

(** X22: the handler of [/metadata] never reports an error.  When no
    provider fails it answers with status 200 and a record; when one
    fails, its [catch] block calls the caught error object as if it were
    the logger, which throws, so that the handler is rejected and no
    response is sent. *)
Theorem metadata_handler_outcome
    (yaml_load : string -> outcome (option CitationData))
    (normalize : string -> string)
    (parse : string -> outcome (list (string * list (string * prim))))
    (providers : Providers) (prepare readme_extract : bool) :
  match provider_failure providers with
  | Some error =>
      metadata_handler yaml_load normalize parse providers prepare readme_extract
      = Rejected "TypeError"
  | None =>
      exists metadata,
        metadata_handler yaml_load normalize parse providers prepare readme_extract
        = Sent (PNum 200) (Some metadata) PUndefined
  end.
Proof.
  pose proof (try_metadata_outcome yaml_load normalize parse providers prepare
                readme_extract) as Htry.
  unfold metadata_handler.
  destruct (provider_failure providers) as [error |].
  - now rewrite Htry.
  - destruct Htry as [metadata ->]. now exists metadata.
Qed.

(** X23: the handler of [/metadata/user] always answers, and never with a
    falsy status: with status 200 and a record when no provider fails, and
    otherwise without data, with the status of the error, or 500 when the
    error has none, and with a message that is not empty. *)
Theorem metadata_user_handler_outcome
    (yaml_load : string -> outcome (option CitationData))
    (normalize : string -> string)
    (parse : string -> outcome (list (string * list (string * prim))))
    (providers : Providers) (prepare : bool) :
  exists status data message,
    metadata_user_handler yaml_load normalize parse providers prepare
    = Sent status data message
    /\ truthy status = true
    /\ match provider_failure providers with
       | Some error =>
           data = None
           /\ status = js_or (failure_status error) (PNum 500)
           /\ truthy message = true
           /\ (failure_message error <> "" -> message = PStr (failure_message error))
       | None => status = PNum 200 /\ data <> None
       end.
Proof.
  pose proof (try_metadata_outcome yaml_load normalize parse providers prepare true)
    as Htry.
  unfold metadata_user_handler.
  destruct (provider_failure providers) as [error |].
  - rewrite Htry. eexists _, _, _. split; [reflexivity |].
    split; [| split; [reflexivity | split; [reflexivity | split]]].
    + unfold js_or. now destruct (truthy (failure_status error)) eqn:Hs.
    + unfold js_or. now destruct (truthy (PStr (failure_message error))) eqn:Hm.
    + intros Hne. unfold js_or.
      destruct (failure_message error) as [| c rest]; [contradiction | reflexivity].
  - destruct Htry as [metadata ->]. eexists _, _, _. split; [reflexivity |].
    split; [reflexivity |]. split; [reflexivity | discriminate].
Qed.

(** ** Metadata Updater *)

Lemma read_log (v : jsval) (name : string) (log : list Request) :
  snd (read v name log) = log
  /\ forall e, fst (read v name log) = inr e -> failure_status e = PUndefined.
Proof.
  unfold read. destruct (get_prop v name) as [x | msg]; simpl.
  - split; [reflexivity | discriminate].
  - split; [reflexivity |]. now intros e [= <-].
Qed.

Lemma branch_name_of_log (branches : list jsval) (log : list Request) :
  snd (branch_name_of branches log) = log.
Proof.
  induction branches as [| branch rest IH]; [reflexivity |].
  cbn [branch_name_of]. unfold bindU.
  pose proof (read_log branch "name" log) as [Hlog _].
  destruct (read branch "name" log) as [[name | e] log1]; simpl in Hlog; subst log1;
    [| reflexivity].
  destruct (branch_name_of rest log) as [[names | e] log2]; simpl in IH; subst log2;
    reflexivity.
Qed.

Lemma getTargetBranch_log (octokit : Service) (owner repo branchName : string)
    (log : list Request) :
  snd (getTargetBranch octokit owner repo branchName log)
  = log ++ [GET_branch owner repo branchName].
Proof.
  unfold getTargetBranch, bindU, request.
  destruct (octokit log (GET_branch owner repo branchName)) as [resp | e];
    [| reflexivity].
  unfold read.
  destruct (get_prop (resp_data resp) "commit") as [commit | msg]; [| reflexivity].
  simpl. destruct (get_prop commit "sha") as [sha | msg]; [| reflexivity].
  simpl. destruct (get_prop (resp_data resp) "name") as [name | msg]; reflexivity.
Qed.

Lemma getBranchesNames_log (octokit : Service) (owner repo : string)
    (log : list Request) :
  snd (getBranchesNames octokit owner repo log) = log ++ [GET_branches owner repo].
Proof.
  unfold getBranchesNames, bindU, request.
  destruct (octokit log (GET_branches owner repo)) as [resp | e]; [| reflexivity].
  destruct (resp_data resp) as [p | branches | props]; try reflexivity.
  pose proof (branch_name_of_log branches (log ++ [GET_branches owner repo])) as Hlog.
  destruct (branch_name_of branches _) as [[names | e] log1]; simpl in Hlog;
    subst log1; reflexivity.
Qed.

Lemma createBranch_log (octokit : Service) (owner repo branchName : string)
    (sha : jsval) (log : list Request) :
  snd (createBranch octokit owner repo branchName sha log)
  = log ++ [POST_git_refs owner repo ("refs/heads/" +:+ branchName) sha]
  /\ forall e, fst (createBranch octokit owner repo branchName sha log) = inr e ->
               failure_status e = PUndefined.
Proof.
  unfold createBranch, catchU, request.
  destruct (octokit log _) as [resp | error]; simpl.
  - split; [reflexivity | discriminate].
  - split; [reflexivity |]. now intros e [= <-].
Qed.

Lemma createPullRequest_log (octokit : Service) (owner repo head : string)
    (base : jsval) (title body : prim) (log : list Request) :
  snd (createPullRequest octokit owner repo head base title body log)
  = log ++ [POST_pulls owner repo title head base body]
  /\ (forall e,
        fst (createPullRequest octokit owner repo head base title body log) = inr e ->
        failure_status e = PUndefined)
  /\ (forall resp,
        fst (createPullRequest octokit owner repo head base title body log)
        = inl resp ->
        octokit log (POST_pulls owner repo title head base body) = inl resp).
Proof.
  unfold createPullRequest, catchU, bindU, request.
  destruct (octokit log _) as [resp | error]; simpl.
  - unfold read. destruct (get_prop (resp_data resp) "html_url") as [url | msg]; simpl.
    + split; [reflexivity |]. split; [discriminate |]. now intros r [= <-].
    + split; [reflexivity |]. split; [| discriminate]. now intros e [= <-].
  - split; [reflexivity |]. split; [| discriminate]. now intros e [= <-].
Qed.

(** What [createFile] sends and returns, by the answer to its lookup. *)
Lemma createFile_cases (octokit : Service)
    (owner repo branchName path content : string) (message : prim)
    (log : list Request) :
  (exists e,
      createFile octokit owner repo branchName path content message log
      = (inr e, log ++ [GET_contents owner repo path])
      /\ failure_status e = PUndefined
      /\ ((exists error, octokit log (GET_contents owner repo path) = inr error
                         /\ failure_status error <> PNum 404)
          \/ (exists found msg,
                octokit log (GET_contents owner repo path) = inl found
                /\ resp_status found = 200%Z
                /\ get_prop (resp_data found) "sha" = Thrown msg)))
  \/ (exists sha,
        createFile octokit owner repo branchName path content message log
        = (match octokit (log ++ [GET_contents owner repo path])
                   (PUT_contents owner repo path branchName message content sha) with
           | inl resp => inl resp
           | inr error => inr (write_failure owner repo path error)
           end,
           log ++ [GET_contents owner repo path;
                   PUT_contents owner repo path branchName message content sha])
        /\ match octokit log (GET_contents owner repo path) with
           | inl found =>
               if (resp_status found =? 200)%Z
               then exists v, get_prop (resp_data found) "sha" = Returned v
                              /\ sha = Some v
               else sha = None
           | inr error => failure_status error = PNum 404 /\ sha = None
           end).
Proof.
  remember (createFile octokit owner repo branchName path content message log)
    as result eqn:Hrun.
  unfold createFile, bindU, catchU, request, read, retU, throwU in Hrun.
  cbv beta in Hrun.
  destruct (octokit log (GET_contents owner repo path)) as [found | error]
    eqn:Hlookup.
  - destruct (resp_status found =? 200)%Z eqn:Hstatus.
    + destruct (get_prop (resp_data found) "sha") as [v | msg] eqn:Hsha.
      * right. exists (Some v). split; [| eauto].
        rewrite <- app_assoc in Hrun. cbn [app] in Hrun. unfold write_failure.
        rewrite Hrun. now destruct (octokit (log ++ _) _).
      * left. eexists. split; [exact Hrun |].
        split; [reflexivity |]. right. exists found, msg.
        apply Z.eqb_eq in Hstatus. auto.
    + right. exists None. split; [| reflexivity].
      rewrite <- app_assoc in Hrun. cbn [app] in Hrun. unfold write_failure.
      rewrite Hrun. now destruct (octokit (log ++ _) _).
  - unfold strict_eq in Hrun.
    destruct (bool_decide (failure_status error = PNum 404)) eqn:Hnotfound.
    + apply bool_decide_eq_true in Hnotfound.
      right. exists None. split; [| auto].
      rewrite <- app_assoc in Hrun. cbn [app] in Hrun. unfold write_failure.
      rewrite Hrun. now destruct (octokit (log ++ _) _).
    + apply bool_decide_eq_false in Hnotfound.
      left. eexists. split; [exact Hrun |].
      split; [reflexivity |]. left. now exists error.
Qed.

(** X24: [createFile] always looks the file up first and writes at most
    once.  It does not write when the lookup fails with a status other
    than 404; the write carries the sha of the file found when the lookup
    answered with status 200, and no sha when the lookup answered with
    another status or failed with 404; when it returns, it returns the
    answer to the write; and the errors it throws carry no status. *)
Theorem createFile_protocol (octokit : Service)
    (owner repo branchName path content : string) (message : prim)
    (log : list Request) :
  (snd (createFile octokit owner repo branchName path content message log)
   = log ++ [GET_contents owner repo path]
   \/ exists sha,
        snd (createFile octokit owner repo branchName path content message log)
        = log ++ [GET_contents owner repo path;
                  PUT_contents owner repo path branchName message content sha])
  /\ (forall error,
        octokit log (GET_contents owner repo path) = inr error ->
        failure_status error <> PNum 404 ->
        snd (createFile octokit owner repo branchName path content message log)
        = log ++ [GET_contents owner repo path])
  /\ (forall sha,
        snd (createFile octokit owner repo branchName path content message log)
        = log ++ [GET_contents owner repo path;
                  PUT_contents owner repo path branchName message content sha] ->
        match octokit log (GET_contents owner repo path) with
        | inl found =>
            if (resp_status found =? 200)%Z
            then exists v, get_prop (resp_data found) "sha" = Returned v
                           /\ sha = Some v
            else sha = None
        | inr error => failure_status error = PNum 404 /\ sha = None
        end)
  /\ (forall resp,
        fst (createFile octokit owner repo branchName path content message log)
        = inl resp ->
        exists sha,
          octokit (log ++ [GET_contents owner repo path])
            (PUT_contents owner repo path branchName message content sha)
          = inl resp)
  /\ (forall e,
        fst (createFile octokit owner repo branchName path content message log)
        = inr e ->
        failure_status e = PUndefined).
Proof.
  destruct (createFile_cases octokit owner repo branchName path content message log)
    as [(e & -> & Hstatus & Hwhy) | (sha & -> & Hsha)]; cbn [fst snd].
  - split; [now left |]. split; [reflexivity |]. split; [| split].
    + intros sha Hlog. apply app_inv_head in Hlog. discriminate.
    + discriminate.
    + now intros e' [= <-].
  - split; [right; now exists sha |]. split; [| split; [| split]].
    + intros error Hlookup Hne. rewrite Hlookup in Hsha. now destruct Hsha.
    + intros sha' Hlog. apply app_inv_head in Hlog. injection Hlog as <-.
      exact Hsha.
    + intros resp Hresp. exists sha. now destruct (octokit (log ++ _) _).
    + intros e He. destruct (octokit (log ++ _) _); [discriminate |].
      now injection He as <-.
Qed.

Lemma bindU_inl {A B} (c : U A) (k : A -> U B) (log log' : list Request) (a : A) :
  c log = (inl a, log') -> bindU c k log = k a log'.
Proof. intros Hc. unfold bindU. now rewrite Hc. Qed.

Lemma bindU_inr {A B} (c : U A) (k : A -> U B) (log log' : list Request)
    (e : Failure) :
  c log = (inr e, log') -> bindU c k log = (inr e, log').
Proof. intros Hc. unfold bindU. now rewrite Hc. Qed.

(** The pull route with an Octokit instance: the requests it has sent when
    it ends, and what it sends back. *)
Lemma try_pull_trace (btoa : string -> string) (octokit : Service)
    (owner repo filename branch : string) (metadata : jsval)
    (title message : prim) :
  let finalTitle := js_or title (PStr defaultTitle) in
  let finalMessage := js_or message (PStr (defaultMessage filename)) in
  let content := btoa (ToString_val metadata) in
  let result := try_pull btoa (Some octokit) owner repo filename branch metadata
                  title message [] in
  map stage (snd result) = seq 0 (length (snd result))
  /\ (forall e, fst result = inr e -> 3 <= length (snd result) ->
                failure_status e = PUndefined)
  /\ (forall resp, fst result = inl resp ->
      exists name sha base s url pullrequest names,
        resp = PullSuccess name base url pullrequest
        /\ snd result
           = [GET_branch owner repo branch;
              GET_branches owner repo;
              POST_git_refs owner repo ("refs/heads/" +:+ name) sha;
              GET_contents owner repo filename;
              PUT_contents owner repo filename name finalMessage content s;
              POST_pulls owner repo finalTitle name base finalMessage]
        /\ octokit [GET_branch owner repo branch;
                    GET_branches owner repo;
                    POST_git_refs owner repo ("refs/heads/" +:+ name) sha;
                    GET_contents owner repo filename;
                    PUT_contents owner repo filename name finalMessage content s]
             (POST_pulls owner repo finalTitle name base finalMessage)
           = inl pullrequest
        /\ fst (getBranchesNames octokit owner repo [GET_branch owner repo branch])
           = inl names
        /\ generateBranchName names = Returned name)
  /\ (forall r, r ∈ snd result -> stage r = 5 ->
      exists name sha base s,
        snd result
        = [GET_branch owner repo branch;
           GET_branches owner repo;
           POST_git_refs owner repo ("refs/heads/" +:+ name) sha;
           GET_contents owner repo filename;
           PUT_contents owner repo filename name finalMessage content s;
           POST_pulls owner repo finalTitle name base finalMessage]
        /\ exists written,
             octokit [GET_branch owner repo branch;
                      GET_branches owner repo;
                      POST_git_refs owner repo ("refs/heads/" +:+ name) sha;
                      GET_contents owner repo filename]
               (PUT_contents owner repo filename name finalMessage content s)
             = inl written).
Proof.
  intros finalTitle finalMessage content result.
  assert (Hres : result
                 = try_pull btoa (Some octokit) owner repo filename branch metadata
                     title message []) by reflexivity.
  clearbody result.
  unfold try_pull in Hres. fold finalTitle finalMessage content in Hres.
  cbn [getOctokit] in Hres. unfold bindU at 1 in Hres. cbn [retU] in Hres.
  (* the target branch *)
  pose proof (getTargetBranch_log octokit owner repo branch []) as Hlog1.
  destruct (getTargetBranch octokit owner repo branch [])
    as [[[mainSHA mainName] | e1] log1] eqn:H1; cbn [snd app] in Hlog1; subst log1;
    [rewrite (bindU_inl _ _ _ _ _ H1) in Hres
    | rewrite (bindU_inr _ _ _ _ _ H1) in Hres; subst result; cbn [fst snd];
      split; [reflexivity |]; split; [| split];
      [ intros e _ Hlen; simpl in Hlen; lia
      | discriminate
      | intros r Hr Hs; apply list_elem_of_singleton in Hr as ->; discriminate ]].
  cbn [fst snd] in Hres.
  (* the branch names *)
  pose proof (getBranchesNames_log octokit owner repo [GET_branch owner repo branch])
    as Hlog2.
  destruct (getBranchesNames octokit owner repo [GET_branch owner repo branch])
    as [[names | e2] log2] eqn:H2; cbn [snd app] in Hlog2; subst log2;
    [rewrite (bindU_inl _ _ _ _ _ H2) in Hres
    | rewrite (bindU_inr _ _ _ _ _ H2) in Hres; subst result; cbn [fst snd];
      split; [reflexivity |]; split; [| split];
      [ intros e _ Hlen; simpl in Hlen; lia
      | discriminate
      | intros r Hr Hs;
        repeat (apply elem_of_cons in Hr as [-> | Hr]; [discriminate |]);
        now apply elem_of_nil in Hr ]].
  (* the new name *)
  unfold bindU at 1 in Hres.
  destruct (generateBranchName names) as [name | msg] eqn:Hname;
    cbn [retU throwU] in Hres;
    [| subst result; cbn [fst snd];
       split; [reflexivity |]; split; [| split];
       [ intros e _ Hlen; simpl in Hlen; lia
       | discriminate
       | intros r Hr Hs;
         repeat (apply elem_of_cons in Hr as [-> | Hr]; [discriminate |]);
         now apply elem_of_nil in Hr ]].
  (* the new branch *)
  destruct (createBranch_log octokit owner repo name mainSHA
              [GET_branch owner repo branch; GET_branches owner repo])
    as [Hlog3 Hstatus3].
  destruct (createBranch octokit owner repo name mainSHA _)
    as [[created | e3] log3] eqn:H3; cbn [fst snd app] in Hlog3, Hstatus3; subst log3;
    [rewrite (bindU_inl _ _ _ _ _ H3) in Hres
    | rewrite (bindU_inr _ _ _ _ _ H3) in Hres; subst result; cbn [fst snd];
      split; [reflexivity |]; split; [| split];
      [ intros e [= <-] _; now apply Hstatus3
      | discriminate
      | intros r Hr Hs;
        repeat (apply elem_of_cons in Hr as [-> | Hr]; [discriminate |]);
        now apply elem_of_nil in Hr ]].
  (* the file *)
  destruct (createFile_cases octokit owner repo name filename content finalMessage
              [GET_branch owner repo branch; GET_branches owner repo;
               POST_git_refs owner repo ("refs/heads/" +:+ name) mainSHA])
    as [(e4 & H4 & Hstatus4 & _) | (s & H4 & _)]; cbn [app] in H4.
  { rewrite (bindU_inr _ _ _ _ _ H4) in Hres. subst result. cbn [fst snd].
    split; [reflexivity |]. split; [| split].
    - intros e [= <-] _. exact Hstatus4.
    - discriminate.
    - intros r Hr Hs.
      repeat (apply elem_of_cons in Hr as [-> | Hr]; [discriminate |]).
      now apply elem_of_nil in Hr. }
  destruct (octokit _ (PUT_contents owner repo filename name finalMessage content s))
    as [written | error4] eqn:Hput;
    [rewrite (bindU_inl _ _ _ _ _ H4) in Hres
    | rewrite (bindU_inr _ _ _ _ _ H4) in Hres; subst result; cbn [fst snd];
      split; [reflexivity |]; split; [| split];
      [ now intros e [= <-] _
      | discriminate
      | intros r Hr Hs;
        repeat (apply elem_of_cons in Hr as [-> | Hr]; [discriminate |]);
        now apply elem_of_nil in Hr ]].
  (* the pull request *)
  destruct (createPullRequest_log octokit owner repo name mainName finalTitle
              finalMessage
              [GET_branch owner repo branch; GET_branches owner repo;
               POST_git_refs owner repo ("refs/heads/" +:+ name) mainSHA;
               GET_contents owner repo filename;
               PUT_contents owner repo filename name finalMessage content s])
    as (Hlog5 & Hstatus5 & Hanswer5).
  destruct (createPullRequest octokit owner repo name mainName finalTitle
              finalMessage _)
    as [[pullrequest | e5] log5] eqn:H5; cbn [fst snd app] in Hlog5, Hstatus5, Hanswer5;
    subst log5;
    [rewrite (bindU_inl _ _ _ _ _ H5) in Hres
    | rewrite (bindU_inr _ _ _ _ _ H5) in Hres; subst result; cbn [fst snd];
      split; [reflexivity |]; split; [| split];
      [ intros e [= <-] _; now apply Hstatus5
      | discriminate
      | intros r Hr Hs; exists name, mainSHA, mainName, s;
        split; [reflexivity | now exists written] ]].
  unfold bindU, read in Hres.
  destruct (get_prop (resp_data pullrequest) "html_url") as [url | msg];
    cbn [retU throwU fst snd] in Hres; subst result; cbn [fst snd];
    (split; [reflexivity |]; split; [| split]).
  - discriminate.
  - intros resp [= <-]. exists name, mainSHA, mainName, s, url, pullrequest, names.
    split; [reflexivity |]. split; [reflexivity |].
    split; [now apply Hanswer5 |]. split; [reflexivity | exact Hname].
  - intros r Hr Hs. exists name, mainSHA, mainName, s.
    split; [reflexivity | now exists written].
  - now intros e [= <-] _.
  - discriminate.
  - intros r Hr Hs. exists name, mainSHA, mainName, s.
    split; [reflexivity | now exists written].
Qed.

Section PullRoute.

Variable btoa : string -> string.
Variables owner repo filename branch : string.
Variable metadata : jsval.
Variables title message : prim.



(** X27: the status of a failure reaches the client only from the two
    branch lookups.  Once the route has sent its third request, whatever
    fails afterwards (the creation of the branch, the lookup or the write
    of the file, the pull request) is reported with an undefined [code]. *)
Theorem pull_route_error_code (installation : option Service) :
  3 <= length (snd (pull_route btoa installation owner repo filename branch
                      metadata title message)) ->
  match fst (pull_route btoa installation owner repo filename branch metadata
               title message) with
  | PullError code text => code = PUndefined
  | PullSuccess _ _ _ _ => True
  end.
Proof.
  intros Hlen. destruct installation as [octokit |];
    [| simpl in Hlen; lia].
  destruct (try_pull_trace btoa octokit owner repo filename branch metadata
              title message) as (_ & Hcode & Hok & _).
  unfold pull_route in *.
  destruct (try_pull btoa (Some octokit) owner repo filename branch metadata
              title message []) as [[resp | e] log]; cbn [fst snd] in *.
  - destruct (Hok _ eq_refl) as (? & ? & ? & ? & ? & ? & ? & -> & _).
    exact I.
  - now apply Hcode.
Qed.

(** X28: a pull request is requested only at the end of the full
    sequence: after the new branch was requested, and after the file was
    written to that very branch with a write the service accepted; its
    head is the new branch. *)
Theorem pull_route_pull_request_last (installation : option Service)
    (r : Request) :
  r ∈ snd (pull_route btoa installation owner repo filename branch metadata
             title message) ->
  stage r = 5 ->
  exists (octokit : Service) (name : string) (sha base : jsval)
         (s : option jsval) (written : Response),
    installation = Some octokit
    /\ snd (pull_route btoa installation owner repo filename branch metadata
              title message)
       = [GET_branch owner repo branch;
          GET_branches owner repo;
          POST_git_refs owner repo ("refs/heads/" +:+ name) sha;
          GET_contents owner repo filename;
          PUT_contents owner repo filename name
            (js_or message (PStr (defaultMessage filename)))
            (btoa (ToString_val metadata)) s;
          POST_pulls owner repo (js_or title (PStr defaultTitle)) name base
            (js_or message (PStr (defaultMessage filename)))]
    /\ octokit [GET_branch owner repo branch;
                GET_branches owner repo;
                POST_git_refs owner repo ("refs/heads/" +:+ name) sha;
                GET_contents owner repo filename]
         (PUT_contents owner repo filename name
            (js_or message (PStr (defaultMessage filename)))
            (btoa (ToString_val metadata)) s)
       = inl written.
Proof.
  intros Hin Hstage. destruct installation as [octokit |];
    [| now apply elem_of_nil in Hin].
  destruct (try_pull_trace btoa octokit owner repo filename branch metadata
              title message) as (_ & _ & _ & Hpull).
  unfold pull_route in *.
  destruct (try_pull btoa (Some octokit) owner repo filename branch metadata
              title message []) as [[resp | e] log]; cbn [fst snd] in *;
    destruct (Hpull r Hin Hstage) as (name & sha & base & s & Hlog & written & Hput);
    exists octokit, name, sha, base, s, written; auto.
Qed.

End PullRoute.


(** The statement of X27 at a service that refuses to create the branch. *)
Lemma pull_route_error_code_sample :
  match fst (pull_route (fun s => s) (Some read_only_service) "o" "r"
               "codemeta.json" "main" (JPrim (PStr "{}")) PUndefined PUndefined) with
  | PullError code text => code = PUndefined
  | PullSuccess _ _ _ _ => True
  end.
Proof.
  apply (pull_route_error_code (fun s => s) "o" "r" "codemeta.json" "main"
           (JPrim (PStr "{}")) PUndefined PUndefined (Some read_only_service)).
  vm_compute. lia.
Defined.

(** The statement of X28 at the service that answers every request. *)
Lemma pull_route_pull_request_last_sample :
  exists (octokit : Service) (name : string) (sha base : jsval)
         (s : option jsval) (written : Response),
    Some writable_service = Some octokit
    /\ snd (pull_route (fun s => s) (Some writable_service) "o" "r" "codemeta.json"
              "main" (JPrim (PStr "{}")) PUndefined PUndefined)
       = [GET_branch "o" "r" "main";
          GET_branches "o" "r";
          POST_git_refs "o" "r" ("refs/heads/" +:+ name) sha;
          GET_contents "o" "r" "codemeta.json";
          PUT_contents "o" "r" "codemeta.json" name
            (js_or PUndefined (PStr (defaultMessage "codemeta.json")))
            ((fun s => s) (ToString_val (JPrim (PStr "{}")))) s;
          POST_pulls "o" "r" (js_or PUndefined (PStr defaultTitle)) name base
            (js_or PUndefined (PStr (defaultMessage "codemeta.json")))]
    /\ octokit [GET_branch "o" "r" "main";
                GET_branches "o" "r";
                POST_git_refs "o" "r" ("refs/heads/" +:+ name) sha;
                GET_contents "o" "r" "codemeta.json"]
         (PUT_contents "o" "r" "codemeta.json" name
            (js_or PUndefined (PStr (defaultMessage "codemeta.json")))
            ((fun s => s) (ToString_val (JPrim (PStr "{}")))) s)
       = inl written.
Proof.
  apply (pull_route_pull_request_last (fun s => s) "o" "r" "codemeta.json" "main"
           (JPrim (PStr "{}")) PUndefined PUndefined (Some writable_service)
           (POST_pulls "o" "r" (js_or PUndefined (PStr defaultTitle)) "evaluator-2"
              (JPrim (PStr "main"))
              (js_or PUndefined (PStr (defaultMessage "codemeta.json"))))).
  - apply list_elem_of_In. vm_compute. do 5 right. left. reflexivity.
  - reflexivity.
Defined.

(** The pull route on a service that refuses to create the branch: three
    requests are sent, and the status 403 of the refusal is not in the
    response. *)
Example pull_route_refused_branch :
  pull_route (fun s => s) (Some read_only_service) "o" "r" "codemeta.json" "main"
    (JPrim (PStr "{}")) PUndefined PUndefined
  = (PullError PUndefined
       "Failed to create branch 'evaluator-2' in repository 'o/r': Forbidden",
     [GET_branch "o" "r" "main"; GET_branches "o" "r";
      POST_git_refs "o" "r" "refs/heads/evaluator-2" (JPrim (PStr "c0ffee"))]).
Proof. vm_compute. reflexivity. Qed.
